(** * The S3 browser component: listing, navigation, pagination, selection, export

    A shallow embedding of [src/components/s3-browser.tsx].  The React
    component keeps its state in a handful of [useState] cells; here the cells
    are the fields of one record, every event handler is a function on that
    record, and the [useEffect] hooks are run after each handler by comparing
    their dependency lists before and after, as React does.  The two
    asynchronous operations (the delimited listing call and the archive call)
    are split at their [await]: the part before it is a handler, the part after
    it is an event that carries the collaborator's answer, so that other events
    may come in between.

    Conventions: a JavaScript string is a [string] (a sequence of bytes), a
    number is a [Z], an optional field is an [option], a [Set<string>] is a
    [gset]; since the SDK types make [Key] and [Prefix] optional and the
    component asserts them with [!], the set holds [option string].  The
    bucket configuration, [toast] and [onDisconnect] are fixed for the time the
    component is mounted. *)

From Stdlib Require Import ZArith String Ascii List Lia Bool.
From stdpp Require Import base decidable option list gmap strings sets.

Local Open Scope string_scope.
Local Open Scope list_scope.

(** ** The JavaScript built-ins the component calls *)

Module Js.

(** [s.startsWith(p)]. *)
Fixpoint startsWith (s p : string) {struct p} : bool :=
  match p, s with
  | EmptyString, _ => true
  | String a p', String b s' => Ascii.eqb a b && startsWith s' p'
  | String _ _, EmptyString => false
  end.

(** [s.slice(n)] for a non-negative [n]. *)
Fixpoint sliceFrom (n : nat) (s : string) : string :=
  match n, s with
  | O, _ => s
  | S n', String _ s' => sliceFrom n' s'
  | S _, EmptyString => EmptyString
  end.

(** [s.endsWith(p)]. *)
Definition endsWith (s p : string) : bool :=
  (String.length p <=? String.length s)%nat
  && String.eqb (sliceFrom (String.length s - String.length p) s) p.

(** [s.split(sep)] for a one-character separator: the pieces between the
    separators, empty pieces included. *)
Fixpoint split (sep : ascii) (s : string) : list string :=
  match s with
  | EmptyString => [EmptyString]
  | String c s' =>
      if Ascii.eqb c sep then EmptyString :: split sep s'
      else match split sep s' with
           | [] => [String c EmptyString]
           | w :: ws => String c w :: ws
           end
  end.

(** [parts.filter(Boolean)] on strings: the empty string is the only falsy one. *)
Definition truthy (s : string) : bool := negb (String.eqb s "").
Definition filterBoolean (l : list string) : list string := List.filter truthy l.

(** [parts.join(sep)]. *)
Fixpoint join (sep : string) (l : list string) : string :=
  match l with
  | [] => ""
  | [x] => x
  | x :: rest => x +:+ sep +:+ join sep rest
  end.

(** [arr.slice(start, end)], with the relative (negative) indices of
    Array.prototype.slice. *)
Definition sliceIndex (len i : Z) : Z :=
  if (i <? 0)%Z then Z.max (len + i) 0 else Z.min i len.

Definition slice {A} (l : list A) (start stop : Z) : list A :=
  let len := Z.of_nat (length l) in
  let k := sliceIndex len start in
  let final := sliceIndex len stop in
  take (Z.to_nat (Z.max (final - k) 0)) (drop (Z.to_nat k) l).

(** [s.replace(pat, rep)] with a string pattern: the first occurrence only. *)
Fixpoint replace (pat rep s : string) : string :=
  if startsWith s pat then rep +:+ sliceFrom (String.length pat) s
  else match s with
       | EmptyString => EmptyString
       | String c s' => String c (replace pat rep s')
       end.

(** [s.includes(sub)]. *)
Fixpoint includes (s sub : string) : bool :=
  startsWith s sub
  || match s with
     | EmptyString => false
     | String _ s' => includes s' sub
     end.

(** [s.toLowerCase()]; strings are byte sequences here, so only the letters
    A to Z are mapped. *)
Definition lowerAscii (c : ascii) : ascii :=
  let n := nat_of_ascii c in
  if ((65 <=? n) && (n <=? 90))%nat then ascii_of_nat (n + 32) else c.

Fixpoint toLowerCase (s : string) : string :=
  match s with
  | EmptyString => EmptyString
  | String c s' => String (lowerAscii c) (toLowerCase s')
  end.

(** [Math.ceil(n / d)] on integers with [d <> 0]. *)
Definition ceilDiv (n d : Z) : Z := (- ((- n) / d))%Z.

End Js.

(** ** Data model *)

(** The two entry kinds of a ListObjectsV2 answer, with the fields the
    component reads.  Every field is optional in the SDK's types. *)
Record CommonPrefix := { Prefix : option string }.

Record _Object := {
  Key : option string;
  Size : option Z;
  LastModified : option Z
}.

Record ListObjectsV2Output := {
  CommonPrefixes : option (list CommonPrefix);
  Contents : option (list _Object)
}.

(** [type S3Item = (_Object | CommonPrefix) & { type: 'file' | 'folder' }]. *)
Inductive S3Item :=
| folder (p : CommonPrefix)
| file (c : _Object).

Global Instance CommonPrefix_eq_dec : EqDecision CommonPrefix.
Proof. solve_decision. Defined.
Global Instance Object_eq_dec : EqDecision _Object.
Proof. solve_decision. Defined.
Global Instance S3Item_eq_dec : EqDecision S3Item.
Proof. solve_decision. Defined.

(** [item.type === 'folder' ? item.Prefix : item.Key], the expression the
    component uses wherever it needs the key of an item. *)
Definition itemKey (item : S3Item) : option string :=
  match item with
  | folder p => Prefix p
  | file c => Key c
  end.

(** ** Listing: the success path of [fetchItems] *)

(** [c.Key !== currentPrefix]. *)
Definition keyDiffers (c : _Object) (currentPrefix : string) : bool :=
  match Key c with
  | Some k => negb (String.eqb k currentPrefix)
  | None => true
  end.

(** [c.Size! > 0]; an undefined size compares false. *)
Definition sizePositive (c : _Object) : bool :=
  match Size c with
  | Some n => (0 <? n)%Z
  | None => false
  end.

Definition fetchItems_folders (response : ListObjectsV2Output) : list S3Item :=
  map folder (default [] (CommonPrefixes response)).

Definition fetchItems_files (currentPrefix : string) (response : ListObjectsV2Output)
  : list S3Item :=
  map file
    (List.filter (fun c => keyDiffers c currentPrefix && sizePositive c)
       (default [] (Contents response))).

Definition fetchItems_items (currentPrefix : string) (response : ListObjectsV2Output)
  : list S3Item :=
  fetchItems_folders response ++ fetchItems_files currentPrefix response.

(** ** Component state *)

(** The part of the bucket configuration the browser reads. *)
Record Bucket := {
  bucket : string;
  folder_ : option string     (* [config.folder] *)
}.

(** [rootFolder]: the configured folder with a trailing slash, or the empty
    string when no folder (or an empty one) is configured. *)
Definition rootFolder (config : Bucket) : string :=
  match folder_ config with
  | None => ""
  | Some f =>
      if negb (Js.truthy f) then ""
      else if Js.endsWith f "/" then f else f +:+ "/"
  end.

Inductive ItemType := TFolder | TFile.

Definition itemType (item : S3Item) : ItemType :=
  match item with folder _ => TFolder | file _ => TFile end.

(** One entry of the request handed to [getItemsAsZip]. *)
Record DownloadItem := { key : option string; type : ItemType }.

(** The [useState] cells of [S3Browser], followed by the promises that are
    still pending: the prefixes of the listing calls in flight and the request
    lists of the archive calls in flight. *)
Record State := {
  prefix : string;
  items : list S3Item;
  selectedItem : option S3Item;
  isLoading : bool;
  s3Client : bool;                      (* false while the client is null *)
  searchQuery : string;
  selectedKeys : gset (option string);
  isDownloading : bool;
  currentPage : Z;
  itemsPerPage : Z;
  uploadDialogOpen : bool;
  pendingListings : list string;
  pendingDownloads : list (list DownloadItem)
}.

Definition initialState (config : Bucket) : State := {|
  prefix := rootFolder config;
  items := [];
  selectedItem := None;
  isLoading := true;
  s3Client := false;
  searchQuery := "";
  selectedKeys := ∅;
  isDownloading := false;
  currentPage := 1;
  itemsPerPage := 10;
  uploadDialogOpen := false;
  pendingListings := [];
  pendingDownloads := []
|}.

Section Setters.
Variable s : State.

Definition setPrefix (v : string) : State :=
  {| prefix := v; items := items s; selectedItem := selectedItem s;
     isLoading := isLoading s; s3Client := s3Client s;
     searchQuery := searchQuery s; selectedKeys := selectedKeys s;
     isDownloading := isDownloading s; currentPage := currentPage s;
     itemsPerPage := itemsPerPage s; uploadDialogOpen := uploadDialogOpen s;
     pendingListings := pendingListings s;
     pendingDownloads := pendingDownloads s |}.

Definition setItems (v : list S3Item) : State :=
  {| prefix := prefix s; items := v; selectedItem := selectedItem s;
     isLoading := isLoading s; s3Client := s3Client s;
     searchQuery := searchQuery s; selectedKeys := selectedKeys s;
     isDownloading := isDownloading s; currentPage := currentPage s;
     itemsPerPage := itemsPerPage s; uploadDialogOpen := uploadDialogOpen s;
     pendingListings := pendingListings s;
     pendingDownloads := pendingDownloads s |}.

Definition setSelectedItem (v : option S3Item) : State :=
  {| prefix := prefix s; items := items s; selectedItem := v;
     isLoading := isLoading s; s3Client := s3Client s;
     searchQuery := searchQuery s; selectedKeys := selectedKeys s;
     isDownloading := isDownloading s; currentPage := currentPage s;
     itemsPerPage := itemsPerPage s; uploadDialogOpen := uploadDialogOpen s;
     pendingListings := pendingListings s;
     pendingDownloads := pendingDownloads s |}.

Definition setIsLoading (v : bool) : State :=
  {| prefix := prefix s; items := items s; selectedItem := selectedItem s;
     isLoading := v; s3Client := s3Client s;
     searchQuery := searchQuery s; selectedKeys := selectedKeys s;
     isDownloading := isDownloading s; currentPage := currentPage s;
     itemsPerPage := itemsPerPage s; uploadDialogOpen := uploadDialogOpen s;
     pendingListings := pendingListings s;
     pendingDownloads := pendingDownloads s |}.

Definition setS3Client (v : bool) : State :=
  {| prefix := prefix s; items := items s; selectedItem := selectedItem s;
     isLoading := isLoading s; s3Client := v;
     searchQuery := searchQuery s; selectedKeys := selectedKeys s;
     isDownloading := isDownloading s; currentPage := currentPage s;
     itemsPerPage := itemsPerPage s; uploadDialogOpen := uploadDialogOpen s;
     pendingListings := pendingListings s;
     pendingDownloads := pendingDownloads s |}.

Definition setSearchQuery (v : string) : State :=
  {| prefix := prefix s; items := items s; selectedItem := selectedItem s;
     isLoading := isLoading s; s3Client := s3Client s;
     searchQuery := v; selectedKeys := selectedKeys s;
     isDownloading := isDownloading s; currentPage := currentPage s;
     itemsPerPage := itemsPerPage s; uploadDialogOpen := uploadDialogOpen s;
     pendingListings := pendingListings s;
     pendingDownloads := pendingDownloads s |}.

Definition setSelectedKeys (v : gset (option string)) : State :=
  {| prefix := prefix s; items := items s; selectedItem := selectedItem s;
     isLoading := isLoading s; s3Client := s3Client s;
     searchQuery := searchQuery s; selectedKeys := v;
     isDownloading := isDownloading s; currentPage := currentPage s;
     itemsPerPage := itemsPerPage s; uploadDialogOpen := uploadDialogOpen s;
     pendingListings := pendingListings s;
     pendingDownloads := pendingDownloads s |}.

Definition setIsDownloading (v : bool) : State :=
  {| prefix := prefix s; items := items s; selectedItem := selectedItem s;
     isLoading := isLoading s; s3Client := s3Client s;
     searchQuery := searchQuery s; selectedKeys := selectedKeys s;
     isDownloading := v; currentPage := currentPage s;
     itemsPerPage := itemsPerPage s; uploadDialogOpen := uploadDialogOpen s;
     pendingListings := pendingListings s;
     pendingDownloads := pendingDownloads s |}.

Definition setCurrentPage (v : Z) : State :=
  {| prefix := prefix s; items := items s; selectedItem := selectedItem s;
     isLoading := isLoading s; s3Client := s3Client s;
     searchQuery := searchQuery s; selectedKeys := selectedKeys s;
     isDownloading := isDownloading s; currentPage := v;
     itemsPerPage := itemsPerPage s; uploadDialogOpen := uploadDialogOpen s;
     pendingListings := pendingListings s;
     pendingDownloads := pendingDownloads s |}.

Definition setItemsPerPage (v : Z) : State :=
  {| prefix := prefix s; items := items s; selectedItem := selectedItem s;
     isLoading := isLoading s; s3Client := s3Client s;
     searchQuery := searchQuery s; selectedKeys := selectedKeys s;
     isDownloading := isDownloading s; currentPage := currentPage s;
     itemsPerPage := v; uploadDialogOpen := uploadDialogOpen s;
     pendingListings := pendingListings s;
     pendingDownloads := pendingDownloads s |}.

Definition setUploadDialogOpen (v : bool) : State :=
  {| prefix := prefix s; items := items s; selectedItem := selectedItem s;
     isLoading := isLoading s; s3Client := s3Client s;
     searchQuery := searchQuery s; selectedKeys := selectedKeys s;
     isDownloading := isDownloading s; currentPage := currentPage s;
     itemsPerPage := itemsPerPage s; uploadDialogOpen := v;
     pendingListings := pendingListings s;
     pendingDownloads := pendingDownloads s |}.

Definition setPendingListings (v : list string) : State :=
  {| prefix := prefix s; items := items s; selectedItem := selectedItem s;
     isLoading := isLoading s; s3Client := s3Client s;
     searchQuery := searchQuery s; selectedKeys := selectedKeys s;
     isDownloading := isDownloading s; currentPage := currentPage s;
     itemsPerPage := itemsPerPage s; uploadDialogOpen := uploadDialogOpen s;
     pendingListings := v;
     pendingDownloads := pendingDownloads s |}.

Definition setPendingDownloads (v : list (list DownloadItem)) : State :=
  {| prefix := prefix s; items := items s; selectedItem := selectedItem s;
     isLoading := isLoading s; s3Client := s3Client s;
     searchQuery := searchQuery s; selectedKeys := selectedKeys s;
     isDownloading := isDownloading s; currentPage := currentPage s;
     itemsPerPage := itemsPerPage s; uploadDialogOpen := uploadDialogOpen s;
     pendingListings := pendingListings s;
     pendingDownloads := v |}.
End Setters.

(** ** Derived values of a render *)

(** The name shown for an item, as the search filter computes it:
    [Prefix?.replace(prefix, '').replace('/', '')] for a folder and
    [Key?.replace(prefix, '')] for a file. *)
Definition displayName (currentPrefix : string) (item : S3Item) : option string :=
  match item with
  | folder p => (fun k => Js.replace "/" "" (Js.replace currentPrefix "" k)) <$> Prefix p
  | file c => (fun k => Js.replace currentPrefix "" k) <$> Key c
  end.

Definition matchesSearch (s : State) (item : S3Item) : bool :=
  match displayName (prefix s) item with
  | Some name => Js.includes (Js.toLowerCase name) (Js.toLowerCase (searchQuery s))
  | None => false
  end.

Definition filteredItems (s : State) : list S3Item :=
  if negb (Js.truthy (searchQuery s)) then items s
  else List.filter (matchesSearch s) (items s).

Definition totalPages (s : State) : Z :=
  Js.ceilDiv (Z.of_nat (length (filteredItems s))) (itemsPerPage s).

Definition startIndex (s : State) : Z := ((currentPage s - 1) * itemsPerPage s)%Z.
Definition endIndex (s : State) : Z := (startIndex s + itemsPerPage s)%Z.

Definition paginatedItems (s : State) : list S3Item :=
  Js.slice (filteredItems s) (startIndex s) (endIndex s).

Definition isSelected (s : State) (k : option string) : bool :=
  bool_decide (k ∈ selectedKeys s).

Definition areAllVisibleSelected (s : State) : bool :=
  (0 <? length (paginatedItems s))%nat
  && (size (selectedKeys s) =? length (paginatedItems s))%nat
  && forallb (fun item => isSelected s (itemKey item)) (paginatedItems s).

Definition isAnyVisibleSelected (s : State) : bool :=
  existsb (fun item => isSelected s (itemKey item)) (paginatedItems s).

(** The value of a tri-state checkbox: [boolean | "indeterminate"]. *)
Inductive CheckedState := Checked (b : bool) | Indeterminate.

(** JavaScript truthiness of a [CheckedState]: the string is truthy. *)
Definition checkedTruthy (c : CheckedState) : bool :=
  match c with Checked b => b | Indeterminate => true end.

(** The [checked] attribute of the select-all checkbox. *)
Definition selectAllState (s : State) : CheckedState :=
  if areAllVisibleSelected s then Checked true
  else if isAnyVisibleSelected s then Indeterminate
  else Checked false.

(** Breadcrumbs. *)
Definition relativePrefix (config : Bucket) (s : State) : string :=
  if Js.startsWith (prefix s) (rootFolder config)
  then Js.sliceFrom (String.length (rootFolder config)) (prefix s)
  else prefix s.

Definition breadcrumbParts (config : Bucket) (s : State) : list string :=
  "home" :: Js.filterBoolean (Js.split "/"%char (relativePrefix config s)).

Definition relativePath (config : Bucket) (s : State) (index : nat) : string :=
  match index with
  | O => ""
  | _ => Js.join "/" (Js.slice (breadcrumbParts config s) 1 (Z.of_nat index + 1)) +:+ "/"
  end.

Definition fullPath (config : Bucket) (s : State) (index : nat) : string :=
  rootFolder config +:+ relativePath config s index.

(** The page number behind the [i]-th page link. *)
Definition pageNum (s : State) (i : Z) : Z :=
  if (totalPages s <=? 5)%Z then (i + 1)%Z
  else if (currentPage s <=? 3)%Z then (i + 1)%Z
  else if (totalPages s - 2 <=? currentPage s)%Z then (totalPages s - 4 + i)%Z
  else (currentPage s - 2 + i)%Z.

(** ** What the component does to the outside *)

Inductive Output :=
| SendListObjectsV2 (queried : string)       (* [s3Client.send(command)] *)
| ToastConnectionError                       (* destructive toast "Connection Error" *)
| OnDisconnect                               (* [onDisconnect()] *)
| GetItemsAsZip (request : list DownloadItem)
| SaveArchive (base64Zip : string)           (* the data link is clicked *)
| ToastDownloadStarted (count : nat)
| ToastDownloadFailed.                       (* destructive toast "Download Failed" *)

(** ** Event handlers *)

(** [fetchItems], up to the [await]. *)
Definition fetchItems_start (currentPrefix : string) (s : State) : State * list Output :=
  if negb (s3Client s) then (s, [])
  else
    let s := setIsLoading s true in
    (setPendingListings s (pendingListings s ++ [currentPrefix]),
     [SendListObjectsV2 currentPrefix]).

(** [fetchItems], from the [await] on: [Some response] when the call
    resolves, [None] when it throws. *)
Definition fetchItems_settle (currentPrefix : string)
    (result : option ListObjectsV2Output) (s : State) : State * list Output :=
  match result with
  | Some response =>
      let s := setItems s (fetchItems_items currentPrefix response) in
      let s := setSelectedKeys s ∅ in
      (setIsLoading s false, [])
  | None =>
      (setIsLoading s false, [ToastConnectionError; OnDisconnect])
  end.

(** The two facts about the click target that [handleItemClick] tests. *)
Record MouseEvent := {
  inCheckbox : bool;      (* [e.target.closest('[role="checkbox"]')] *)
  inSelectedRow : bool    (* [e.target.closest('tr.selected')] *)
}.

Definition handleItemClick (item : S3Item) (e : MouseEvent) (s : State) : State :=
  if inCheckbox e || inSelectedRow e then s
  else
    match item with
    | folder p =>
        match Prefix p with
        | Some k =>
            if Js.truthy k then
              if isSelected s (Some k) then s
              else setSearchQuery (setPrefix s k) ""
            else setSelectedItem s (Some item)
        | None => setSelectedItem s (Some item)
        end
    | file _ => setSelectedItem s (Some item)
    end.

(** The click handler of the name cell: on a selected row it opens the
    details and stops the event; otherwise the event reaches the row. *)
Definition nameCellClick (item : S3Item) (e : MouseEvent) (s : State) : State :=
  if isSelected s (itemKey item) then setSelectedItem s (Some item)
  else handleItemClick item e s.

Definition handleBreadcrumbClick (path : string) (s : State) : State :=
  setSearchQuery (setPrefix s path) "".

Definition handleSelect (k : option string) (checked : CheckedState) (s : State) : State :=
  setSelectedKeys s
    (if checkedTruthy checked then selectedKeys s ∪ {[ k ]}
     else selectedKeys s ∖ {[ k ]}).

Definition handleSelectAll (checked : CheckedState) (s : State) : State :=
  if checkedTruthy checked then
    let allVisibleKeys := map itemKey (paginatedItems s) in
    setSelectedKeys s (list_to_set allVisibleKeys)
  else setSelectedKeys s ∅.

Definition itemsToDownload (s : State) : list DownloadItem :=
  map (fun item => {| key := itemKey item; type := itemType item |})
    (List.filter (fun item => isSelected s (itemKey item)) (items s)).

(** [handleDownloadSelected], up to the [await]. *)
Definition handleDownloadSelected_start (s : State) : State * list Output :=
  if (size (selectedKeys s) =? 0)%nat then (s, [])
  else
    let request := itemsToDownload s in
    let s := setIsDownloading s true in
    (setPendingDownloads s (pendingDownloads s ++ [request]), [GetItemsAsZip request]).

(** [handleDownloadSelected], from the [await] on: [Some base64Zip] when
    [getItemsAsZip] resolves, [None] when it rejects. *)
Definition handleDownloadSelected_settle (request : list DownloadItem)
    (result : option string) (s : State) : State * list Output :=
  match result with
  | Some base64Zip =>
      let s := setSelectedKeys s ∅ in
      (setIsDownloading s false,
       [SaveArchive base64Zip; ToastDownloadStarted (length request)])
  | None =>
      (setIsDownloading s false, [ToastDownloadFailed])
  end.

(** [handleDownloadSelected] from the call to its completion, with the
    answer of [getItemsAsZip] given as a function of the request. *)
Definition handleDownloadSelected (getItemsAsZip : list DownloadItem → option string)
    (s : State) : State * list Output :=
  if (size (selectedKeys s) =? 0)%nat then (s, [])
  else
    let request := itemsToDownload s in
    let s := setIsDownloading s true in
    match getItemsAsZip request with
    | Some base64Zip =>
        let s := setSelectedKeys s ∅ in
        (setIsDownloading s false,
         [GetItemsAsZip request; SaveArchive base64Zip;
          ToastDownloadStarted (length request)])
    | None =>
        (setIsDownloading s false, [GetItemsAsZip request; ToastDownloadFailed])
    end.

Definition handleUploadComplete (s : State) : State * list Output :=
  let '(s, out) := fetchItems_start (prefix s) s in
  (setUploadDialogOpen s false, out).

Definition previousClick (s : State) : State :=
  if (1 <? currentPage s)%Z then setCurrentPage s (currentPage s - 1)%Z else s.

Definition nextClick (s : State) : State :=
  if (currentPage s <? totalPages s)%Z then setCurrentPage s (currentPage s + 1)%Z else s.

Definition pageLinkClick (i : Z) (s : State) : State :=
  setCurrentPage s (pageNum s i).

(** ** Effects *)

(** [useEffect(() => { if (s3Client) fetchItems(prefix) }, [prefix, s3Client, fetchItems])]:
    [fetchItems] is memoised on the bucket, the client, [toast] and
    [onDisconnect], so it changes only with the client.  [old] and [new] are
    the states of the previous and of the current render. *)
Definition fetchEffect (old new : State) : State * list Output :=
  if bool_decide (prefix old ≠ prefix new)
     || negb (Bool.eqb (s3Client old) (s3Client new))
  then if s3Client new then fetchItems_start (prefix new) new else (new, [])
  else (new, []).

(** [useEffect(() => setCurrentPage(1), [searchQuery, prefix, itemsPerPage])]. *)
Definition pageResetDeps (old new : State) : bool :=
  bool_decide (searchQuery old ≠ searchQuery new)
  || bool_decide (prefix old ≠ prefix new)
  || bool_decide (itemsPerPage old ≠ itemsPerPage new).

Definition pageResetEffect (old new : State) (s : State) : State :=
  if pageResetDeps old new then setCurrentPage s 1 else s.

Definition runEffects (old new : State) : State * list Output :=
  let '(s, out) := fetchEffect old new in
  (pageResetEffect old new s, out).

(** ** Events *)

Inductive Event :=
| Mounted                                     (* the client is created *)
| ListingSettled (i : nat) (result : option ListObjectsV2Output)
| RowClicked (item : S3Item) (onNameCell : bool) (e : MouseEvent)
| BreadcrumbClicked (index : nat)
| ItemChecked (item : S3Item) (checked : CheckedState)
| SelectAllChecked (checked : CheckedState)
| DownloadClicked
| DownloadSettled (j : nat) (result : option string)
| UploadClicked
| UploadDialogChanged (open : bool)
| UploadCompleted
| DetailsChanged (open : bool)
| SearchTyped (q : string)
| ItemsPerPageChosen (value : Z)
| PreviousClicked
| NextClicked
| PageLinkClicked (i : nat).

(** The values offered by the items-per-page select. *)
Definition pageSizeOptions : list Z := [10; 25; 50; 100]%Z.

Definition paginationShown (s : State) : bool :=
  (10 <? length (filteredItems s))%nat.

Definition pageLinksShown (s : State) : bool :=
  paginationShown s && (1 <? totalPages s)%Z.

(** Whether the rendered interface offers the event in state [s]. *)
Definition enabled (config : Bucket) (s : State) (ev : Event) : bool :=
  match ev with
  | Mounted => negb (s3Client s)
  | ListingSettled i _ => (i <? length (pendingListings s))%nat
  | RowClicked item _ _ =>
      negb (isLoading s) && bool_decide (item ∈ paginatedItems s)
  | BreadcrumbClicked index =>
      (S index <? length (breadcrumbParts config s))%nat
  | ItemChecked item _ =>
      negb (isLoading s) && bool_decide (item ∈ paginatedItems s)
  | SelectAllChecked _ =>
      negb (isLoading s) && (0 <? length (paginatedItems s))%nat
  | DownloadClicked =>
      (0 <? size (selectedKeys s))%nat && negb (isDownloading s)
  | DownloadSettled j _ => (j <? length (pendingDownloads s))%nat
  | UploadClicked | UploadDialogChanged _ | UploadCompleted
  | DetailsChanged _ | SearchTyped _ => true
  | ItemsPerPageChosen value =>
      paginationShown s && bool_decide (value ∈ pageSizeOptions)
  | PreviousClicked | NextClicked => pageLinksShown s
  | PageLinkClicked i =>
      pageLinksShown s && (Z.of_nat i <? Z.min 5 (totalPages s))%Z
  end.

(** The handler an event runs. *)
Definition handle (config : Bucket) (ev : Event) (s : State) : State * list Output :=
  match ev with
  | Mounted => (setS3Client s true, [])
  | ListingSettled i result =>
      match pendingListings s !! i with
      | Some queried =>
          fetchItems_settle queried result
            (setPendingListings s (delete i (pendingListings s)))
      | None => (s, [])
      end
  | RowClicked item onNameCell e =>
      (if onNameCell then nameCellClick item e s else handleItemClick item e s, [])
  | BreadcrumbClicked index => (handleBreadcrumbClick (fullPath config s index) s, [])
  | ItemChecked item checked => (handleSelect (itemKey item) checked s, [])
  | SelectAllChecked checked => (handleSelectAll checked s, [])
  | DownloadClicked => handleDownloadSelected_start s
  | DownloadSettled j result =>
      match pendingDownloads s !! j with
      | Some request =>
          handleDownloadSelected_settle request result
            (setPendingDownloads s (delete j (pendingDownloads s)))
      | None => (s, [])
      end
  | UploadClicked => (setUploadDialogOpen s true, [])
  | UploadDialogChanged open => (setUploadDialogOpen s open, [])
  | UploadCompleted => handleUploadComplete s
  | DetailsChanged open => (if open then s else setSelectedItem s None, [])
  | SearchTyped q => (setSearchQuery s q, [])
  | ItemsPerPageChosen value => (setItemsPerPage s value, [])
  | PreviousClicked => (previousClick s, [])
  | NextClicked => (nextClick s, [])
  | PageLinkClicked i => (pageLinkClick (Z.of_nat i) s, [])
  end.

(** One transition: the handler, then the effects of the render it causes. *)
Definition step (config : Bucket) (s : State) (ev : Event) : option (State * list Output) :=
  if enabled config s ev then
    let '(s1, out1) := handle config ev s in
    let '(s2, out2) := runEffects s s1 in
    Some (s2, out1 ++ out2)
  else None.

Fixpoint run (config : Bucket) (s : State) (evs : list Event) : option State :=
  match evs with
  | [] => Some s
  | ev :: evs' =>
      match step config s ev with
      | Some (s', _) => run config s' evs'
      | None => None
      end
  end.

(** States reachable from the initial one, through events whose
    collaborator answers satisfy [answers]. *)
Inductive reachable (config : Bucket) (answers : State → Event → Prop) : State → Prop :=
| reachable_init : reachable config answers (initialState config)
| reachable_step s ev s' out :
    reachable config answers s →
    answers s ev →
    step config s ev = Some (s', out) →
    reachable config answers s'.

(** No assumption on the collaborators. *)
Definition anyAnswer : State → Event → Prop := fun _ _ => True.

(** The store client returns only common prefixes that extend the queried
    prefix. *)
Definition responseExtends (queried : string) (response : ListObjectsV2Output) : Prop :=
  ∀ p k, p ∈ default [] (CommonPrefixes response) → Prefix p = Some k →
         Js.startsWith k queried = true.

Definition storeExtendsQuery (s : State) (ev : Event) : Prop :=
  match ev with
  | ListingSettled i (Some response) =>
      ∀ queried, pendingListings s !! i = Some queried → responseExtends queried response
  | _ => True
  end.

(** * Properties *)

(** ** Listing *)

(** The rule of the specification for keeping a file entry: its key differs
    from the queried prefix and its size is greater than 0. *)
Definition keptBySpec (queried : string) (c : _Object) : Prop :=
  Key c ≠ Some queried ∧ ∃ n, Size c = Some n ∧ (0 < n)%Z.

Lemma keptBySpec_reflect queried c :
  keyDiffers c queried && sizePositive c = true ↔ keptBySpec queried c.
Proof.
  unfold keyDiffers, sizePositive, keptBySpec.
  rewrite andb_true_iff. split.
  - intros [Hk Hs]. split.
    + destruct (Key c) as [k|]; [|discriminate].
      apply negb_true_iff, String.eqb_neq in Hk. congruence.
    + destruct (Size c) as [n|]; [|discriminate].
      exists n. split; [reflexivity|]. by apply Z.ltb_lt.
  - intros [Hk (n & Hn & Hpos)]. split.
    + destruct (Key c) as [k|]; [|reflexivity].
      apply negb_true_iff, String.eqb_neq. congruence.
    + rewrite Hn. by apply Z.ltb_lt.
Qed.

Global Instance keptBySpec_dec queried c : Decision (keptBySpec queried c).
Proof.
  destruct (keyDiffers c queried && sizePositive c) eqn:E.
  - left. by apply keptBySpec_reflect.
  - right. intros H%keptBySpec_reflect. congruence.
Defined.

Lemma List_filter_reflect {A} (f : A → bool) (P : A → Prop) `{!∀ x, Decision (P x)}
    (l : list A) :
  (∀ x, f x = true ↔ P x) → List.filter f l = filter P l.
Proof.
  intros Hf. induction l as [|x l IH]; [reflexivity|].
  cbn [List.filter]. rewrite filter_cons, IH.
  destruct (decide (P x)) as [HP|HP]; destruct (f x) eqn:E; try reflexivity.
  - apply Hf in HP. congruence.
  - apply Hf in E. contradiction.
Qed.

Lemma fetchItems_items_spec currentPrefix response :
  fetchItems_items currentPrefix response
  = (folder <$> default [] (CommonPrefixes response))
    ++ (file <$> filter (keptBySpec currentPrefix) (default [] (Contents response))).
Proof.
  unfold fetchItems_items, fetchItems_folders, fetchItems_files.
  rewrite (List_filter_reflect _ (keptBySpec currentPrefix)); [reflexivity|].
  intros c. apply keptBySpec_reflect.
Qed.

Lemma elem_of_fetchItems_folder currentPrefix response p :
  folder p ∈ fetchItems_items currentPrefix response
  ↔ p ∈ default [] (CommonPrefixes response).
Proof.
  rewrite fetchItems_items_spec, elem_of_app, !list_elem_of_fmap. split.
  - intros [(q & [= ->] & Hq)|(c & [=] & _)]. exact Hq.
  - intros Hp. left. by exists p.
Qed.

Lemma elem_of_fetchItems_file currentPrefix response c :
  file c ∈ fetchItems_items currentPrefix response
  ↔ c ∈ default [] (Contents response) ∧ keptBySpec currentPrefix c.
Proof.
  rewrite fetchItems_items_spec, elem_of_app, !list_elem_of_fmap. split.
  - intros [(q & [=] & _)|(c' & [= ->] & Hc)].
    by apply list_elem_of_filter in Hc as [? ?].
  - intros [Hc Hk]. right. exists c. split; [reflexivity|].
    apply list_elem_of_filter. by split.
Qed.

(** C1. The listing is the returned folder entries, in the returned order,
    followed by the returned file entries, in the returned order, of which
    exactly those are kept whose key differs from the queried prefix and whose
    size is greater than 0. *)
Theorem fetchItems_items_folders_then_kept_files currentPrefix response :
  fetchItems_items currentPrefix response
  = (folder <$> default [] (CommonPrefixes response))
    ++ (file <$> filter (keptBySpec currentPrefix) (default [] (Contents response)))
  ∧ (∀ p, folder p ∈ fetchItems_items currentPrefix response
          ↔ p ∈ default [] (CommonPrefixes response))
  ∧ (∀ c, file c ∈ fetchItems_items currentPrefix response
          ↔ c ∈ default [] (Contents response) ∧ keptBySpec currentPrefix c).
Proof.
  split; [apply fetchItems_items_spec|]. split.
  - intros p. apply elem_of_fetchItems_folder.
  - intros c. apply elem_of_fetchItems_file.
Qed.

(** ** Strings *)

Lemma String_app_cons a s t : String a s +:+ t = String a (s +:+ t).
Proof. reflexivity. Qed.

Lemma startsWith_refl s : Js.startsWith s s = true.
Proof. induction s as [|a s IH]; simpl; [reflexivity|]. by rewrite Ascii.eqb_refl. Qed.

Lemma startsWith_app p t : Js.startsWith (p +:+ t) p = true.
Proof.
  induction p as [|a p IH]; [reflexivity|].
  rewrite String_app_cons. simpl. by rewrite Ascii.eqb_refl.
Qed.

Lemma startsWith_trans a b c :
  Js.startsWith b a = true → Js.startsWith c b = true → Js.startsWith c a = true.
Proof.
  revert b c. induction a as [|x a IH]; intros b c Hab Hbc; [reflexivity|].
  destruct b as [|y b]; [discriminate|]. destruct c as [|z c]; [discriminate|].
  simpl in *. apply andb_true_iff in Hab as [Hxy Hab].
  apply andb_true_iff in Hbc as [Hyz Hbc].
  apply Ascii.eqb_eq in Hxy as ->. rewrite Hyz. simpl. by apply (IH b).
Qed.

(** [Js.startsWith] decides the string-prefix relation. *)
Lemma startsWith_spec s p : Js.startsWith s p = true ↔ ∃ rest, s = p +:+ rest.
Proof.
  revert s. induction p as [|a p IH]; intros s; simpl.
  - split; [|done]. intros _. by exists s.
  - destruct s as [|b s].
    + split; [done|]. by intros [rest [=]].
    + rewrite andb_true_iff, Ascii.eqb_eq, IH. split.
      * intros [-> [rest ->]]. by exists rest.
      * intros [rest [= -> ->]]. split; [done|]. by exists rest.
Qed.

Lemma sliceFrom_length s : Js.sliceFrom (String.length s) s = "".
Proof. induction s as [|a s IH]; simpl; [reflexivity|exact IH]. Qed.

(** ** How a transition is assembled *)

Lemma step_Some config s ev s' out :
  step config s ev = Some (s', out) →
  enabled config s ev = true ∧ s' = (runEffects s (handle config ev s).1).1.
Proof.
  unfold step. destruct (enabled config s ev); [|discriminate].
  destruct (handle config ev s) as [s1 out1]. simpl.
  destruct (runEffects s s1) as [s2 out2]. by intros [= <- <-].
Qed.

Lemma step_enabled config s ev :
  enabled config s ev = true →
  ∃ out, step config s ev = Some ((runEffects s (handle config ev s).1).1, out).
Proof.
  intros En. unfold step. rewrite En.
  destruct (handle config ev s) as [s1 out1]. simpl.
  destruct (runEffects s s1) as [s2 out2]. by eexists.
Qed.

(** The effects write [isLoading], [currentPage] and the pending listings
    only. *)
Lemma runEffects_frame old new :
  let s := (runEffects old new).1 in
  prefix s = prefix new ∧ items s = items new
  ∧ searchQuery s = searchQuery new ∧ selectedKeys s = selectedKeys new
  ∧ itemsPerPage s = itemsPerPage new ∧ s3Client s = s3Client new
  ∧ pendingDownloads s = pendingDownloads new.
Proof.
  unfold runEffects, fetchEffect, pageResetEffect, fetchItems_start.
  repeat case_match; simplify_eq/=; done.
Qed.

Lemma runEffects_currentPage old new :
  currentPage (runEffects old new).1
  = if pageResetDeps old new then 1%Z else currentPage new.
Proof.
  unfold runEffects, fetchEffect, pageResetEffect, fetchItems_start.
  repeat case_match; simplify_eq/=; done.
Qed.

Lemma runEffects_pendingListings old new :
  pendingListings (runEffects old new).1
  = if (bool_decide (prefix old ≠ prefix new)
        || negb (Bool.eqb (s3Client old) (s3Client new)))
       && s3Client new
    then pendingListings new ++ [prefix new]
    else pendingListings new.
Proof.
  unfold runEffects, fetchEffect, pageResetEffect, fetchItems_start.
  repeat case_match; simplify_eq/=; try done.
Qed.

(** ** The visible items come from the listing *)

Lemma slice_subseteq {A} (l : list A) start stop : Js.slice l start stop ⊆ l.
Proof.
  unfold Js.slice. etrans; [apply subseteq_take|apply subseteq_drop].
Qed.

Lemma filteredItems_subseteq s : filteredItems s ⊆ items s.
Proof.
  unfold filteredItems. destruct (negb (Js.truthy (searchQuery s))); [done|].
  intros x Hx. apply list_elem_of_In, filter_In in Hx as [Hx _].
  by apply list_elem_of_In.
Qed.

Lemma paginatedItems_subseteq s : paginatedItems s ⊆ items s.
Proof.
  unfold paginatedItems. etrans; [apply slice_subseteq|apply filteredItems_subseteq].
Qed.

(** ** Navigation stays under the root folder *)

Section UnderRoot.
Variable config : Bucket.

Definition underRoot (s : State) : Prop :=
  Js.startsWith (prefix s) (rootFolder config) = true
  ∧ (∀ q, q ∈ pendingListings s → Js.startsWith q (rootFolder config) = true)
  ∧ (∀ p k, folder p ∈ items s → Prefix p = Some k →
            Js.startsWith k (rootFolder config) = true).

Lemma underRoot_init : underRoot (initialState config).
Proof.
  split; [apply startsWith_refl|]. split.
  - intros q Hq. by apply elem_of_nil in Hq.
  - intros p k Hp. by apply elem_of_nil in Hp.
Qed.

Lemma underRoot_runEffects old new : underRoot new → underRoot (runEffects old new).1.
Proof.
  intros (Hp & Hq & Hi).
  destruct (runEffects_frame old new) as (E1 & E2 & _).
  unfold underRoot. rewrite E1, E2, runEffects_pendingListings.
  split; [done|]. split; [|done].
  intros q. case_match; [|by apply Hq].
  rewrite elem_of_app, list_elem_of_singleton. intros [?| ->]; auto.
Qed.

Lemma underRoot_handle s ev :
  underRoot s → enabled config s ev = true → storeExtendsQuery s ev →
  underRoot (handle config ev s).1.
Proof.
  intros (Hp & Hq & Hi) En Hstore.
  destruct ev; simpl in *.
  - done.
  - (* a listing settles *)
    destruct (pendingListings s !! i) as [queried|] eqn:Hi'; [|done].
    assert (Hqr : Js.startsWith queried (rootFolder config) = true).
    { apply Hq. by eapply list_elem_of_lookup_2. }
    assert (Hq' : ∀ q, q ∈ delete i (pendingListings s) →
                       Js.startsWith q (rootFolder config) = true).
    { intros q Hin. apply Hq. by eapply list_elem_of_delete_inv. }
    destruct result as [response|]; simpl; [|done].
    split; [done|]. split; [done|].
    intros p k Hin Hk. apply elem_of_fetchItems_folder in Hin.
    apply (startsWith_trans _ queried); [done|].
    by eapply (Hstore queried).
  - (* a row is clicked *)
    apply andb_true_iff in En as [_ Hin]. apply bool_decide_eq_true in Hin.
    apply paginatedItems_subseteq in Hin.
    assert (underRoot (handleItemClick item e s)) as Hclick.
    { unfold handleItemClick. repeat case_match; simplify_eq/=; try done.
      split; [|done]. by eapply Hi. }
    destruct onNameCell; [|exact Hclick].
    unfold nameCellClick. by case_match.
  - (* a breadcrumb is clicked *)
    split; [|done]. unfold fullPath. apply startsWith_app.
  - done.
  - unfold handleSelectAll. by case_match.
  - unfold handleDownloadSelected_start. by case_match.
  - destruct (pendingDownloads s !! j); [|done]. by destruct result.
  - done.
  - done.
  - unfold handleUploadComplete, fetchItems_start.
    destruct (negb (s3Client s)); simpl; [done|].
    split; [done|]. split; [|done].
    intros q. simpl. rewrite elem_of_app, list_elem_of_singleton.
    intros [?| ->]; auto.
  - by destruct open.
  - done.
  - done.
  - unfold previousClick. by case_match.
  - unfold nextClick. by case_match.
  - done.
Qed.

Lemma reachable_underRoot s : reachable config storeExtendsQuery s → underRoot s.
Proof.
  induction 1 as [|s ev s' out _ IH Hans Hstep]; [apply underRoot_init|].
  apply step_Some in Hstep as [En ->].
  by apply underRoot_runEffects, underRoot_handle.
Qed.
End UnderRoot.

(** C2. Starting from [currentPrefix = rootPrefix], after any sequence of
    transitions (folder clicks and breadcrumb clicks among them), and given
    that the store client only returns common prefixes that extend the queried
    prefix, the current prefix has the root prefix as a string prefix. *)
Theorem prefix_startsWith_rootFolder config s :
  reachable config storeExtendsQuery s →
  Js.startsWith (prefix s) (rootFolder config) = true
  ∧ ∃ rest, prefix s = rootFolder config +:+ rest.
Proof.
  intros Hs. destruct (reachable_underRoot config s Hs) as [Hp _].
  split; [exact Hp|]. by apply startsWith_spec.
Qed.

(** ** Reachability *)

Lemma reachable_mono config (answers answers' : State → Event → Prop) s :
  (∀ s ev, answers s ev → answers' s ev) →
  reachable config answers s → reachable config answers' s.
Proof.
  intros Hsub. induction 1 as [|s ev s' out _ IH Hans Hstep].
  - apply reachable_init.
  - eapply reachable_step; eauto.
Qed.

Lemma run_reachable config s evs s' :
  reachable config anyAnswer s → run config s evs = Some s' →
  reachable config anyAnswer s'.
Proof.
  revert s. induction evs as [|ev evs IH]; intros s Hs; simpl.
  - by intros [= <-].
  - destruct (step config s ev) as [[s1 out]|] eqn:Hstep; [|discriminate].
    apply IH. by eapply reachable_step.
Qed.

(** A checkable form of [responseExtends], to run traces under the store
    assumption. *)
Definition responseExtendsb (queried : string) (response : ListObjectsV2Output) : bool :=
  forallb (fun p => match Prefix p with
                    | Some k => Js.startsWith k queried
                    | None => true
                    end)
    (default [] (CommonPrefixes response)).

Lemma responseExtendsb_sound queried response :
  responseExtendsb queried response = true → responseExtends queried response.
Proof.
  unfold responseExtendsb, responseExtends. rewrite forallb_forall.
  intros H p k Hp Hk. apply list_elem_of_In, H in Hp. by rewrite Hk in Hp.
Qed.

Definition storeExtendsQueryb (s : State) (ev : Event) : bool :=
  match ev with
  | ListingSettled i (Some response) =>
      match pendingListings s !! i with
      | Some queried => responseExtendsb queried response
      | None => true
      end
  | _ => true
  end.

Lemma storeExtendsQueryb_sound s ev :
  storeExtendsQueryb s ev = true → storeExtendsQuery s ev.
Proof.
  destruct ev as [|i [response|]| | | | | | | | | | | | | | |]; simpl; try done.
  intros H queried Hq. rewrite Hq in H. by apply responseExtendsb_sound.
Qed.

Fixpoint runWithStore (config : Bucket) (s : State) (evs : list Event) : option State :=
  match evs with
  | [] => Some s
  | ev :: evs' =>
      if storeExtendsQueryb s ev then
        match step config s ev with
        | Some (s', _) => runWithStore config s' evs'
        | None => None
        end
      else None
  end.

Lemma runWithStore_reachable config s evs s' :
  reachable config storeExtendsQuery s → runWithStore config s evs = Some s' →
  reachable config storeExtendsQuery s'.
Proof.
  revert s. induction evs as [|ev evs IH]; intros s Hs; simpl.
  - by intros [= <-].
  - destruct (storeExtendsQueryb s ev) eqn:Hok; [|discriminate].
    destruct (step config s ev) as [[s1 out]|] eqn:Hstep; [|discriminate].
    apply IH. eapply reachable_step; [done| |done].
    by apply storeExtendsQueryb_sound.
Qed.

(** ** Invariants of the page cells *)

Definition pageCellsOk (s : State) : Prop :=
  itemsPerPage s ∈ pageSizeOptions ∧ (1 ≤ currentPage s)%Z.

Lemma pageNum_ge_1 s i : (0 ≤ i)%Z → (1 ≤ pageNum s i)%Z.
Proof. intros Hi. unfold pageNum. repeat case_match; lia. Qed.

Lemma pageCellsOk_runEffects old new : pageCellsOk new → pageCellsOk (runEffects old new).1.
Proof.
  intros [Hsz Hpg]. destruct (runEffects_frame old new) as (_ & _ & _ & _ & E & _).
  unfold pageCellsOk. rewrite E, runEffects_currentPage.
  split; [done|]. case_match; lia.
Qed.

Lemma pageCellsOk_handle config s ev :
  pageCellsOk s → enabled config s ev = true → pageCellsOk (handle config ev s).1.
Proof.
  intros [Hsz Hpg] En. destruct ev; simpl in *; try done.
  - destruct (pendingListings s !! i); [|done]. by destruct result.
  - destruct onNameCell; unfold nameCellClick, handleItemClick;
      repeat case_match; simplify_eq/=; done.
  - unfold handleSelectAll. by case_match.
  - unfold handleDownloadSelected_start. by case_match.
  - destruct (pendingDownloads s !! j); [|done]. by destruct result.
  - unfold handleUploadComplete, fetchItems_start.
    by destruct (negb (s3Client s)).
  - by destruct open.
  - apply andb_true_iff in En as [_ Hv]. apply bool_decide_eq_true in Hv.
    by split.
  - unfold previousClick. case_match eqn:E; [|done].
    apply Z.ltb_lt in E. split; simpl; [done|lia].
  - unfold nextClick. case_match; [|done]. split; simpl; [done|lia].
  - split; simpl; [done|]. apply pageNum_ge_1. lia.
Qed.

Lemma reachable_pageCellsOk config s : reachable config anyAnswer s → pageCellsOk s.
Proof.
  induction 1 as [|s ev s' out _ IH _ Hstep].
  - split; simpl; [|lia]. unfold pageSizeOptions. set_solver.
  - apply step_Some in Hstep as [En ->].
    by apply pageCellsOk_runEffects, (pageCellsOk_handle config).
Qed.

Lemma pageSizeOptions_pos v : v ∈ pageSizeOptions → (0 < v)%Z.
Proof.
  unfold pageSizeOptions. rewrite !elem_of_cons, elem_of_nil.
  intros [->|[->|[->|[->|[]]]]]; lia.
Qed.

(** [Js.ceilDiv] is the ceiling of the quotient. *)
Lemma ceilDiv_spec n d :
  (0 < d)%Z → (d * (Js.ceilDiv n d - 1) < n ≤ d * Js.ceilDiv n d)%Z.
Proof.
  intros Hd. unfold Js.ceilDiv.
  pose proof (Z.div_mod (- n) d ltac:(lia)) as Hdm.
  pose proof (Z.mod_pos_bound (- n) d Hd) as Hmod. nia.
Qed.

(** ** Before the client exists *)

Section NoClient.
Variable config : Bucket.

(** Until the client is created the component shows the spinner at the
    root folder, with no listing in flight. *)
Definition waitsForClient (s : State) : Prop :=
  s3Client s = false →
  isLoading s = true ∧ prefix s = rootFolder config ∧ pendingListings s = [].

Lemma breadcrumbParts_at_root s :
  prefix s = rootFolder config → breadcrumbParts config s = ["home"].
Proof.
  intros E. unfold breadcrumbParts, relativePrefix.
  by rewrite E, startsWith_refl, sliceFrom_length.
Qed.

Lemma waitsForClient_runEffects old new :
  s3Client old = s3Client new → prefix old = prefix new →
  waitsForClient new → waitsForClient (runEffects old new).1.
Proof.
  intros Ec Ep Hnew. unfold waitsForClient, runEffects, fetchEffect, pageResetEffect.
  rewrite Ec, Ep, Bool.eqb_reflx, bool_decide_eq_false_2 by (by intros ?).
  simpl. by case_match.
Qed.

Lemma waitsForClient_step s ev s' out :
  waitsForClient s → step config s ev = Some (s', out) → waitsForClient s'.
Proof.
  intros Hs Hstep. apply step_Some in Hstep as [En ->].
  destruct (s3Client s) eqn:Hc.
  { (* the client exists and no handler removes it *)
    intros Hc'. exfalso.
    destruct (runEffects_frame s (handle config ev s).1) as (_ & _ & _ & _ & _ & E & _).
    rewrite E in Hc'. clear E.
    destruct ev; simpl in *; try congruence.
    - destruct (pendingListings s !! i); [|simpl in *; congruence].
      destruct result; simpl in *; congruence.
    - destruct onNameCell; unfold nameCellClick, handleItemClick in Hc';
        repeat case_match; simplify_eq/=; congruence.
    - unfold handleSelectAll in Hc'. case_match; simpl in *; congruence.
    - unfold handleDownloadSelected_start in Hc'. case_match; simpl in *; congruence.
    - destruct (pendingDownloads s !! j); [|simpl in *; congruence].
      destruct result; simpl in *; congruence.
    - unfold handleUploadComplete, fetchItems_start in Hc'.
      rewrite Hc in Hc'. simpl in *. congruence.
    - destruct open; simpl in *; congruence.
    - unfold previousClick in Hc'. case_match; simpl in *; congruence.
    - unfold nextClick in Hc'. case_match; simpl in *; congruence. }
  destruct (Hs Hc) as (Hl & Hp & Hq).
  destruct ev; cbn [enabled] in En; simpl.
  - (* the client is created *)
    intros Hc'. destruct (runEffects_frame s (setS3Client s true)) as (_ & _ & _ & _ & _ & E & _).
    rewrite E in Hc'. discriminate.
  - rewrite Hq in En. simpl in En. discriminate.
  - rewrite Hl in En. discriminate.
  - rewrite (breadcrumbParts_at_root s Hp) in En. simpl in En.
    apply Nat.ltb_lt in En. lia.
  - rewrite Hl in En. discriminate.
  - rewrite Hl in En. discriminate.
  - unfold handleDownloadSelected_start. case_match; simpl;
      by apply waitsForClient_runEffects.
  - destruct (pendingDownloads s !! j); [|by apply waitsForClient_runEffects].
    destruct result; by apply waitsForClient_runEffects.
  - by apply waitsForClient_runEffects.
  - by apply waitsForClient_runEffects.
  - unfold handleUploadComplete, fetchItems_start. rewrite Hc. simpl.
    by apply waitsForClient_runEffects.
  - destruct open; by apply waitsForClient_runEffects.
  - by apply waitsForClient_runEffects.
  - by apply waitsForClient_runEffects.
  - unfold previousClick. case_match; by apply waitsForClient_runEffects.
  - unfold nextClick. case_match; by apply waitsForClient_runEffects.
  - by apply waitsForClient_runEffects.
Qed.
End NoClient.

Lemma reachable_waitsForClient config s :
  reachable config anyAnswer s → waitsForClient config s.
Proof.
  induction 1 as [|s ev s' out _ IH _ Hstep].
  - by intros _.
  - by eapply waitsForClient_step.
Qed.

(** ** Navigation and the selection *)

(** The two navigation transitions: a click on a row (which enters the
    folder when the row is one) and a click on a breadcrumb. *)
Definition navigation (ev : Event) : Prop :=
  match ev with
  | RowClicked _ _ _ | BreadcrumbClicked _ => True
  | _ => False
  end.

Lemma navigation_needs_client config s ev :
  waitsForClient config s → navigation ev → enabled config s ev = true →
  s3Client s = true.
Proof.
  intros Hw Hnav En. destruct (s3Client s) eqn:Hc; [done|].
  destruct (Hw Hc) as (Hl & Hp & _).
  destruct ev; try done; cbn [enabled] in En.
  - by rewrite Hl in En.
  - rewrite (breadcrumbParts_at_root config s Hp) in En. simpl in En.
    apply Nat.ltb_lt in En. lia.
Qed.

Lemma navigation_handle_frame config s ev :
  navigation ev →
  s3Client (handle config ev s).1 = s3Client s
  ∧ pendingListings (handle config ev s).1 = pendingListings s
  ∧ selectedKeys (handle config ev s).1 = selectedKeys s
  ∧ items (handle config ev s).1 = items s.
Proof.
  destruct ev; try done; intros _; simpl.
  destruct onNameCell; unfold nameCellClick, handleItemClick;
    repeat case_match; simplify_eq/=; done.
Qed.

(** A pending listing can always settle; when it resolves, the items are
    replaced by the listing of the queried prefix and the selection is
    emptied. *)
Lemma listing_resolves config s i queried response :
  pendingListings s !! i = Some queried →
  ∃ s' out, step config s (ListingSettled i (Some response)) = Some (s', out)
            ∧ items s' = fetchItems_items queried response
            ∧ selectedKeys s' = ∅
            ∧ prefix s' = prefix s
            ∧ currentPage s' = currentPage s.
Proof.
  intros Hq.
  assert (En : enabled config s (ListingSettled i (Some response)) = true).
  { simpl. apply Nat.ltb_lt. by eapply lookup_lt_Some. }
  destruct (step_enabled _ _ _ En) as [out Hstep].
  eexists _, out. split; [exact Hstep|].
  destruct (runEffects_frame s (handle config (ListingSettled i (Some response)) s).1)
    as (E1 & E2 & E3 & E4 & E5 & _).
  rewrite E1, E2, E4, runEffects_currentPage. unfold pageResetDeps.
  simpl. rewrite Hq. simpl.
  by rewrite !bool_decide_eq_false_2 by (by intros ?).
Qed.

Lemma listing_resolved_selection config s i response s' out :
  step config s (ListingSettled i (Some response)) = Some (s', out) →
  selectedKeys s' = ∅.
Proof.
  intros Hstep. pose proof Hstep as [En _]%step_Some.
  simpl in En. apply Nat.ltb_lt, lookup_lt_is_Some_2 in En as [queried Hq].
  destruct (listing_resolves config s i queried response Hq)
    as (s2 & out2 & Hstep2 & _ & Hsel & _).
  congruence.
Qed.

(** C3. When a listing fetch completes without error the selection is
    empty; and a folder click or breadcrumb click that changes the prefix
    issues such a fetch for the new prefix, which empties the selection when it
    completes. *)
Theorem successful_navigation_clears_selection config s :
  reachable config anyAnswer s →
  (∀ i response s' out,
      step config s (ListingSettled i (Some response)) = Some (s', out) →
      selectedKeys s' = ∅)
  ∧ (∀ ev s1 out1,
      navigation ev → step config s ev = Some (s1, out1) → prefix s1 ≠ prefix s →
      ∃ n, pendingListings s1 !! n = Some (prefix s1)
           ∧ ∀ response, ∃ s2 out2,
               step config s1 (ListingSettled n (Some response)) = Some (s2, out2)
               ∧ items s2 = fetchItems_items (prefix s1) response
               ∧ selectedKeys s2 = ∅).
Proof.
  intros Hreach. split.
  - intros i response s' out. apply listing_resolved_selection.
  - intros ev s1 out1 Hnav Hstep Hne.
    apply step_Some in Hstep as [En ->].
    pose proof (navigation_needs_client config s ev
                  (reachable_waitsForClient _ _ Hreach) Hnav En) as Hc.
    destruct (navigation_handle_frame config s ev Hnav) as (Ec & Eq & _).
    destruct (runEffects_frame s (handle config ev s).1) as (Ep & _).
    rewrite Ep in Hne |- *.
    exists (length (pendingListings s)).
    assert (Hlook : pendingListings (runEffects s (handle config ev s).1).1
                      !! length (pendingListings s)
                    = Some (prefix (handle config ev s).1)).
    { rewrite runEffects_pendingListings, Ec, Eq, Hc.
      rewrite bool_decide_eq_true_2 by congruence. simpl.
      by apply list_lookup_middle. }
    split; [exact Hlook|].
    intros response.
    destruct (listing_resolves config _ _ _ response Hlook)
      as (s2 & out2 & Hstep2 & Hitems & Hsel & _).
    by exists s2, out2.
Qed.

(** ** A browsing session *)

(** A bucket scoped to the folder [docs], whose listing has one sub-folder
    and twelve files of sizes 100 to 1200. *)
Definition docsConfig : Bucket := {| bucket := "reports"; folder_ := Some "docs" |}.

Definition mkFile (k : string) (n : Z) : _Object :=
  {| Key := Some k; Size := Some n; LastModified := None |}.

Definition imgFolder : CommonPrefix := {| Prefix := Some "docs/img/" |}.

Definition docsListing : ListObjectsV2Output := {|
  CommonPrefixes := Some [imgFolder];
  Contents := Some [
    mkFile "docs/" 0;
    mkFile "docs/a.txt" 100; mkFile "docs/b.txt" 200; mkFile "docs/c.txt" 300;
    mkFile "docs/d.txt" 400; mkFile "docs/e.txt" 500; mkFile "docs/f.txt" 600;
    mkFile "docs/g.txt" 700; mkFile "docs/h.txt" 800; mkFile "docs/i.txt" 900;
    mkFile "docs/j.txt" 1000; mkFile "docs/k.txt" 1100; mkFile "docs/l.txt" 1200 ]
|}.

Definition emptyListing : ListObjectsV2Output :=
  {| CommonPrefixes := None; Contents := None |}.

(** A click on a row, away from any checkbox. *)
Definition plainClick : MouseEvent := {| inCheckbox := false; inSelectedRow := false |}.

Definition after (evs : list Event) : State :=
  default (initialState docsConfig) (run docsConfig (initialState docsConfig) evs).

(** The listing of [docs/] has arrived. *)
Definition listedTrace : list Event :=
  [Mounted; ListingSettled 0 (Some docsListing)].

(** ... and the first file is ticked. *)
Definition tickedTrace : list Event :=
  listedTrace ++ [ItemChecked (file (mkFile "docs/a.txt" 100)) (Checked true)].

(** ... and the folder [docs/img/] is entered. *)
Definition enteredTrace : list Event :=
  listedTrace ++ [RowClicked (folder imgFolder) false plainClick].

Lemma after_reachable evs :
  run docsConfig (initialState docsConfig) evs = Some (after evs) →
  reachable docsConfig anyAnswer (after evs).
Proof. apply run_reachable, reachable_init. Qed.

Lemma after_reachable_store evs :
  runWithStore docsConfig (initialState docsConfig) evs = Some (after evs) →
  reachable docsConfig storeExtendsQuery (after evs).
Proof. apply runWithStore_reachable, reachable_init. Qed.

(** Entering [docs/img/] from [docs/]: the prefix still starts with the root. *)
Lemma prefix_startsWith_rootFolder_witness :
  reachable docsConfig storeExtendsQuery (after enteredTrace)
  ∧ prefix (after enteredTrace) = "docs/img/"
  ∧ rootFolder docsConfig = "docs/"
  ∧ Js.startsWith (prefix (after enteredTrace)) (rootFolder docsConfig) = true.
Proof.
  assert (H : reachable docsConfig storeExtendsQuery (after enteredTrace)).
  { apply after_reachable_store. vm_compute. reflexivity. }
  split; [exact H|]. split; [vm_compute; reflexivity|].
  split; [vm_compute; reflexivity|].
  exact (proj1 (prefix_startsWith_rootFolder docsConfig (after enteredTrace) H)).
Defined.

(** With [docs/a.txt] ticked, entering [docs/img/] requests its listing, and
    the selection is empty once the listing has arrived. *)
Lemma successful_navigation_clears_selection_witness :
  reachable docsConfig anyAnswer (after tickedTrace)
  ∧ selectedKeys (after tickedTrace) = {[ Some "docs/a.txt" ]}
  ∧ ∃ s1 out1 n,
      step docsConfig (after tickedTrace) (RowClicked (folder imgFolder) false plainClick)
      = Some (s1, out1)
      ∧ pendingListings s1 !! n = Some "docs/img/"
      ∧ ∀ response, ∃ s2 out2,
          step docsConfig s1 (ListingSettled n (Some response)) = Some (s2, out2)
          ∧ selectedKeys s2 = ∅.
Proof.
  assert (H : reachable docsConfig anyAnswer (after tickedTrace)).
  { apply after_reachable. vm_compute. reflexivity. }
  split; [exact H|]. split; [vm_compute; reflexivity|].
  destruct (step docsConfig (after tickedTrace)
              (RowClicked (folder imgFolder) false plainClick))
    as [[s1 out1]|] eqn:Hstep; [|vm_compute in Hstep; discriminate].
  assert (Hp : prefix s1 = "docs/img/").
  { vm_compute in Hstep. by injection Hstep as <- <-. }
  destruct (proj2 (successful_navigation_clears_selection docsConfig _ H)
              (RowClicked (folder imgFolder) false plainClick) s1 out1 I Hstep)
    as (n & Hn & Hsettle).
  { rewrite Hp. vm_compute. discriminate. }
  exists s1, out1, n. split; [reflexivity|]. rewrite Hp in Hn. split; [exact Hn|].
  intros response. destruct (Hsettle response) as (s2 & out2 & H2 & _ & Hsel).
  exists s2, out2. split; [exact H2|exact Hsel].
Defined.

(** ** Pagination *)

Lemma filteredItems_ext a b :
  items a = items b → searchQuery a = searchQuery b → prefix a = prefix b →
  filteredItems a = filteredItems b.
Proof.
  intros Ei Eq Ep. unfold filteredItems. rewrite Ei, Eq.
  case_match; [reflexivity|].
  apply filter_ext. intros x. unfold matchesSearch. by rewrite Ep, Eq.
Qed.

Lemma totalPages_ext a b :
  items a = items b → searchQuery a = searchQuery b → prefix a = prefix b →
  itemsPerPage a = itemsPerPage b → totalPages a = totalPages b.
Proof.
  intros Ei Eq Ep En. unfold totalPages.
  by rewrite (filteredItems_ext a b), En.
Qed.

(** The page behind an offered page link lies between 1 and [totalPages]. *)
Lemma pageNum_in_range s i :
  (1 < totalPages s)%Z → (0 ≤ i < Z.min 5 (totalPages s))%Z →
  (1 ≤ pageNum s i ≤ totalPages s)%Z.
Proof. intros Htp Hi. unfold pageNum. repeat case_match; lia. Qed.

Lemma pageResetDeps_false old new :
  searchQuery old = searchQuery new → prefix old = prefix new →
  itemsPerPage old = itemsPerPage new → pageResetDeps old new = false.
Proof.
  intros E1 E2 E3. unfold pageResetDeps.
  by rewrite !bool_decide_eq_false_2 by (by intros ?).
Qed.

Lemma pageResetDeps_true old new :
  searchQuery old ≠ searchQuery new ∨ prefix old ≠ prefix new
  ∨ itemsPerPage old ≠ itemsPerPage new →
  pageResetDeps old new = true.
Proof.
  unfold pageResetDeps. rewrite !orb_true_iff, !bool_decide_eq_true. tauto.
Qed.

(** What a click on a pagination control does to the state, effects
    included: only [currentPage] moves. *)
Lemma page_click_frame config s ev :
  match ev with PreviousClicked | NextClicked | PageLinkClicked _ => True | _ => False end →
  let s' := (runEffects s (handle config ev s).1).1 in
  items s' = items s ∧ searchQuery s' = searchQuery s ∧ prefix s' = prefix s
  ∧ itemsPerPage s' = itemsPerPage s
  ∧ currentPage s' = currentPage (handle config ev s).1.
Proof.
  intros Hev s'. subst s'.
  assert (items (handle config ev s).1 = items s
          ∧ searchQuery (handle config ev s).1 = searchQuery s
          ∧ prefix (handle config ev s).1 = prefix s
          ∧ itemsPerPage (handle config ev s).1 = itemsPerPage s) as (H1 & H2 & H3 & H4).
  { destruct ev; try done; simpl; unfold previousClick, nextClick;
      repeat case_match; done. }
  destruct (runEffects_frame s (handle config ev s).1) as (E1 & E2 & E3 & _ & E5 & _).
  rewrite E1, E2, E3, E5, runEffects_currentPage, pageResetDeps_false by done.
  done.
Qed.

(** C4, as the code has it.  [totalPages] is the ceiling of
    [totalFiltered / pageSize], hence 0 for an empty filtered list, and the
    page index is not clamped against it.  In every reachable state the page
    size is one of the offered values and the page index is at least 1; a
    click on a page link lands between 1 and [totalPages]. *)
Theorem totalPages_ceiling_currentPage_ge_1 config s :
  reachable config anyAnswer s →
  itemsPerPage s ∈ pageSizeOptions
  ∧ (itemsPerPage s * (totalPages s - 1) < Z.of_nat (length (filteredItems s))
     ≤ itemsPerPage s * totalPages s)%Z
  ∧ (totalPages s = 0%Z ↔ filteredItems s = [])
  ∧ (1 ≤ currentPage s)%Z
  ∧ (∀ i s' out, step config s (PageLinkClicked i) = Some (s', out) →
       (1 ≤ currentPage s' ≤ totalPages s')%Z).
Proof.
  intros Hreach. destruct (reachable_pageCellsOk _ _ Hreach) as [Hsz Hpg].
  pose proof (pageSizeOptions_pos _ Hsz) as Hpos.
  pose proof (ceilDiv_spec (Z.of_nat (length (filteredItems s))) _ Hpos) as Hceil.
  fold (totalPages s) in Hceil.
  split; [done|]. split; [done|]. split; [|split; [done|]].
  - split.
    + intros E. rewrite E in Hceil. apply length_zero_iff_nil. lia.
    + intros E. rewrite E in Hceil. simpl in Hceil. nia.
  - intros i s' out Hstep. apply step_Some in Hstep as [En ->].
    destruct (page_click_frame config s (PageLinkClicked i) I) as (E1 & E2 & E3 & E4 & E5).
    rewrite (totalPages_ext _ s), E5 by done.
    simpl in En |- *. apply andb_true_iff in En as [Hshown Hi].
    apply andb_true_iff in Hshown as [_ Htp].
    apply Z.ltb_lt in Hi, Htp. apply pageNum_in_range; lia.
Qed.

(** The second page is shown. *)
Definition pagedTrace : list Event := listedTrace ++ [NextClicked].

(** ... and an upload completes, which lists the same prefix again. *)
Definition refreshingTrace : list Event := pagedTrace ++ [UploadCompleted].

(** ... and the store answers that the folder is now empty. *)
Definition refreshedTrace : list Event :=
  refreshingTrace ++ [ListingSettled 0 (Some emptyListing)].

(** On the second page of thirteen items. *)
Lemma totalPages_ceiling_currentPage_ge_1_witness :
  reachable docsConfig anyAnswer (after pagedTrace)
  ∧ totalPages (after pagedTrace) = 2%Z
  ∧ currentPage (after pagedTrace) = 2%Z
  ∧ (itemsPerPage (after pagedTrace) * (totalPages (after pagedTrace) - 1)
     < Z.of_nat (length (filteredItems (after pagedTrace)))
     ≤ itemsPerPage (after pagedTrace) * totalPages (after pagedTrace))%Z
  ∧ (1 ≤ currentPage (after pagedTrace))%Z.
Proof.
  assert (H : reachable docsConfig anyAnswer (after pagedTrace)).
  { apply after_reachable. vm_compute. reflexivity. }
  split; [exact H|]. split; [vm_compute; reflexivity|].
  split; [vm_compute; reflexivity|].
  destruct (totalPages_ceiling_currentPage_ge_1 docsConfig (after pagedTrace) H)
    as (_ & Hceil & _ & Hpg & _).
  split; [exact Hceil|exact Hpg].
Defined.

(** C4, counterexample.  On the second page of thirteen items, a refresh
    that finds the folder empty leaves the page index at 2 while [totalPages]
    is 0, not [max 1 0]; the page index exceeds both. *)
Lemma stale_page_after_refresh :
  reachable docsConfig anyAnswer (after refreshedTrace)
  ∧ filteredItems (after refreshedTrace) = []
  ∧ itemsPerPage (after refreshedTrace) = 10%Z
  ∧ totalPages (after refreshedTrace) = 0%Z
  ∧ totalPages (after refreshedTrace)
    ≠ Z.max 1 (Js.ceilDiv (Z.of_nat (length (filteredItems (after refreshedTrace))))
                 (itemsPerPage (after refreshedTrace)))
  ∧ currentPage (after refreshedTrace) = 2%Z
  ∧ ¬ (currentPage (after refreshedTrace) ≤ totalPages (after refreshedTrace))%Z
  ∧ ¬ (currentPage (after refreshedTrace)
       ≤ Z.max 1 (totalPages (after refreshedTrace)))%Z.
Proof.
  split; [apply after_reachable; vm_compute; reflexivity|].
  repeat split; vm_compute; congruence.
Qed.

(** C7, as the code has it.  A transition that changes the search query,
    the prefix or the page size puts the page index at 1; the arrival of a
    listing, which is what changes the item list, leaves the page index where
    it was; and so does the page effect after a click on a pagination control,
    which moves the index to the page asked for. *)
Theorem currentPage_reset_by_query_prefix_pageSize config s ev s' out :
  step config s ev = Some (s', out) →
  (searchQuery s' ≠ searchQuery s ∨ prefix s' ≠ prefix s
   ∨ itemsPerPage s' ≠ itemsPerPage s → currentPage s' = 1%Z)
  ∧ (∀ i result, ev = ListingSettled i result → currentPage s' = currentPage s)
  ∧ (∀ i, ev = PageLinkClicked i → currentPage s' = pageNum s (Z.of_nat i))
  ∧ (ev = NextClicked →
     currentPage s' = if (currentPage s <? totalPages s)%Z
                      then (currentPage s + 1)%Z else currentPage s)
  ∧ (ev = PreviousClicked →
     currentPage s' = if (1 <? currentPage s)%Z
                      then (currentPage s - 1)%Z else currentPage s).
Proof.
  intros Hstep. apply step_Some in Hstep as [En ->].
  split; [|split; [|split; [|split]]].
  - intros Hdep.
    destruct (runEffects_frame s (handle config ev s).1) as (E1 & _ & E3 & _ & E5 & _).
    rewrite E1, E3, E5 in Hdep.
    rewrite runEffects_currentPage, pageResetDeps_true; [done|].
    destruct Hdep as [?|[?|?]]; eauto.
  - intros i result ->.
    rewrite runEffects_currentPage, pageResetDeps_false; simpl.
    all: destruct (pendingListings s !! i); [destruct result|]; done.
  - intros i ->.
    by destruct (page_click_frame config s (PageLinkClicked i) I) as (_ & _ & _ & _ & ->).
  - intros ->.
    destruct (page_click_frame config s NextClicked I) as (_ & _ & _ & _ & ->).
    simpl. unfold nextClick. by case_match.
  - intros ->.
    destruct (page_click_frame config s PreviousClicked I) as (_ & _ & _ & _ & ->).
    simpl. unfold previousClick. by case_match.
Qed.

(** Typing a query on page 2 goes back to page 1. *)
Lemma currentPage_reset_by_query_prefix_pageSize_witness :
  step docsConfig (after pagedTrace) (SearchTyped "report")
  = Some (after (pagedTrace ++ [SearchTyped "report"]), [])
  ∧ currentPage (after pagedTrace) = 2%Z
  ∧ currentPage (after (pagedTrace ++ [SearchTyped "report"])) = 1%Z.
Proof.
  assert (H : step docsConfig (after pagedTrace) (SearchTyped "report")
              = Some (after (pagedTrace ++ [SearchTyped "report"]), [])).
  { vm_compute. reflexivity. }
  split; [exact H|]. split; [vm_compute; reflexivity|].
  apply (proj1 (currentPage_reset_by_query_prefix_pageSize _ _ _ _ _ H)).
  left. vm_compute. discriminate.
Defined.

(** C7, counterexample.  The listing that arrives after an upload replaces
    thirteen items by none, and the page index stays at 2. *)
Lemma refresh_keeps_currentPage :
  reachable docsConfig anyAnswer (after refreshingTrace)
  ∧ step docsConfig (after refreshingTrace) (ListingSettled 0 (Some emptyListing))
    = Some (after refreshedTrace, [])
  ∧ items (after refreshedTrace) ≠ items (after refreshingTrace)
  ∧ currentPage (after refreshedTrace) = 2%Z
  ∧ currentPage (after refreshedTrace) ≠ 1%Z.
Proof.
  split; [apply after_reachable; vm_compute; reflexivity|].
  split; [vm_compute; reflexivity|].
  split; [vm_compute; discriminate|].
  split; [vm_compute; reflexivity|].
  vm_compute; discriminate.
Qed.

(** ** Selection *)

(** C5.  Ticking "select all" makes the selection exactly the set of keys
    of the items on the current page, whatever was selected before; unticking
    it empties the selection.  The effects that follow leave the selection as
    the handler set it. *)
Theorem handleSelectAll_replaces_selection s :
  selectedKeys (runEffects s (handleSelectAll (Checked true) s)).1
  = list_to_set (itemKey <$> paginatedItems s)
  ∧ (∀ k, k ∈ selectedKeys (runEffects s (handleSelectAll (Checked true) s)).1
          ↔ ∃ item, item ∈ paginatedItems s ∧ itemKey item = k)
  ∧ selectedKeys (runEffects s (handleSelectAll (Checked false) s)).1 = ∅.
Proof.
  assert (E : selectedKeys (runEffects s (handleSelectAll (Checked true) s)).1
              = list_to_set (itemKey <$> paginatedItems s)).
  { by destruct (runEffects_frame s (handleSelectAll (Checked true) s))
      as (_ & _ & _ & -> & _). }
  split; [exact E|]. split.
  - intros k. rewrite E, elem_of_list_to_set, list_elem_of_fmap.
    split; intros (item & H1 & H2); exists item; by split.
  - by destruct (runEffects_frame s (handleSelectAll (Checked false) s))
      as (_ & _ & _ & -> & _).
Qed.

Definition allVisibleKeysSelected (s : State) : Prop :=
  ∀ item, item ∈ paginatedItems s → itemKey item ∈ selectedKeys s.

Definition someVisibleKeySelected (s : State) : Prop :=
  ∃ item, item ∈ paginatedItems s ∧ itemKey item ∈ selectedKeys s.

Lemma areAllVisibleSelected_true s :
  areAllVisibleSelected s = true
  ↔ paginatedItems s ≠ []
    ∧ size (selectedKeys s) = length (paginatedItems s)
    ∧ allVisibleKeysSelected s.
Proof.
  unfold areAllVisibleSelected, allVisibleKeysSelected, isSelected.
  rewrite !andb_true_iff, Nat.ltb_lt, Nat.eqb_eq, forallb_forall.
  setoid_rewrite bool_decide_eq_true. setoid_rewrite <- list_elem_of_In.
  assert (0 < length (paginatedItems s) ↔ paginatedItems s ≠ []) as ->; [|tauto].
  destruct (paginatedItems s); simpl; split; (done || lia).
Qed.

Lemma isAnyVisibleSelected_true s :
  isAnyVisibleSelected s = true ↔ someVisibleKeySelected s.
Proof.
  unfold isAnyVisibleSelected, someVisibleKeySelected, isSelected.
  rewrite existsb_exists.
  setoid_rewrite bool_decide_eq_true. by setoid_rewrite <- list_elem_of_In.
Qed.

(** C6, as the code has it.  The select-all checkbox is checked ("all")
    exactly when the page is not empty, every visible key is selected and the
    selection has as many keys as the page has items; it is indeterminate
    ("some") exactly when it is not checked and at least one visible key is
    selected; otherwise it is unchecked ("none"). *)
Theorem selectAllState_cases s :
  (selectAllState s = Checked true
   ↔ paginatedItems s ≠ []
     ∧ allVisibleKeysSelected s
     ∧ size (selectedKeys s) = length (paginatedItems s))
  ∧ (selectAllState s = Indeterminate
     ↔ someVisibleKeySelected s
       ∧ ¬ (paginatedItems s ≠ []
            ∧ allVisibleKeysSelected s
            ∧ size (selectedKeys s) = length (paginatedItems s)))
  ∧ (selectAllState s = Checked false ↔ ¬ someVisibleKeySelected s).
Proof.
  unfold selectAllState.
  pose proof (areAllVisibleSelected_true s) as Hall.
  pose proof (isAnyVisibleSelected_true s) as Hany.
  assert (Hsome : areAllVisibleSelected s = true → someVisibleKeySelected s).
  { intros (Hne & _ & Hsel)%Hall. destruct (paginatedItems s) as [|x l] eqn:E; [done|].
    exists x. rewrite E. split; [left|]. apply Hsel. rewrite E. left. }
  destruct (areAllVisibleSelected s) eqn:Ea.
  - pose proof (Hsome eq_refl). pose proof (proj1 Hall eq_refl).
    split; [|split]; split; try done; tauto.
  - assert (¬ (paginatedItems s ≠ [] ∧ allVisibleKeysSelected s
               ∧ size (selectedKeys s) = length (paginatedItems s))) as Hn.
    { intros (? & ? & ?). assert (false = true); [|done]. apply Hall. done. }
    destruct (isAnyVisibleSelected s) eqn:Eb.
    + pose proof (proj1 Hany eq_refl).
      split; [|split]; split; try done; tauto.
    + assert (¬ someVisibleKeySelected s) by (intros ?%Hany; done).
      split; [|split]; split; try done; tauto.
Qed.

(** The first file is ticked on page 1, then the three files of page 2. *)
Definition acrossPagesTrace : list Event :=
  tickedTrace
  ++ [NextClicked;
      ItemChecked (file (mkFile "docs/j.txt" 1000)) (Checked true);
      ItemChecked (file (mkFile "docs/k.txt" 1100)) (Checked true);
      ItemChecked (file (mkFile "docs/l.txt" 1200)) (Checked true)].

(** C6, counterexample.  With one key selected on page 1 and all three
    keys of page 2 selected, the page is not empty and every visible key is
    selected, yet the checkbox is indeterminate, not checked. *)
Lemma selectAllState_all_selected_yet_indeterminate :
  reachable docsConfig anyAnswer (after acrossPagesTrace)
  ∧ paginatedItems (after acrossPagesTrace)
    = [file (mkFile "docs/j.txt" 1000); file (mkFile "docs/k.txt" 1100);
       file (mkFile "docs/l.txt" 1200)]
  ∧ paginatedItems (after acrossPagesTrace) ≠ []
  ∧ allVisibleKeysSelected (after acrossPagesTrace)
  ∧ size (selectedKeys (after acrossPagesTrace)) = 4
  ∧ selectAllState (after acrossPagesTrace) = Indeterminate
  ∧ selectAllState (after acrossPagesTrace) ≠ Checked true.
Proof.
  split; [apply after_reachable; vm_compute; reflexivity|].
  assert (E : paginatedItems (after acrossPagesTrace)
    = [file (mkFile "docs/j.txt" 1000); file (mkFile "docs/k.txt" 1100);
       file (mkFile "docs/l.txt" 1200)]) by (vm_compute; reflexivity).
  split; [exact E|]. split; [rewrite E; discriminate|]. split.
  - unfold allVisibleKeysSelected. rewrite E. intros item Hin.
    apply (bool_decide_eq_true_1 _).
    rewrite !elem_of_cons, elem_of_nil in Hin.
    destruct Hin as [->|[->|[->|[]]]]; vm_compute; reflexivity.
  - split; [vm_compute; reflexivity|].
    split; [vm_compute; reflexivity|]. vm_compute. discriminate.
Qed.

(** ** Export *)

(** The selected keys are keys of listed items. *)
Definition selectionListed (s : State) : Prop :=
  ∀ k, k ∈ selectedKeys s → ∃ item, item ∈ items s ∧ itemKey item = k.

Lemma selectionListed_runEffects old new :
  selectionListed new → selectionListed (runEffects old new).1.
Proof.
  intros H. destruct (runEffects_frame old new) as (_ & E2 & _ & E4 & _).
  unfold selectionListed. by rewrite E2, E4.
Qed.

Lemma selectionListed_handle config s ev :
  selectionListed s → enabled config s ev = true →
  selectionListed (handle config ev s).1.
Proof.
  intros Hs En. destruct ev; simpl in *; try done.
  - destruct (pendingListings s !! i); [|done]. destruct result; simpl; [|done].
    intros k Hk. simpl in Hk. by apply not_elem_of_empty in Hk.
  - destruct onNameCell; unfold nameCellClick, handleItemClick;
      repeat case_match; simplify_eq/=; done.
  - apply andb_true_iff in En as [_ Hin]. apply bool_decide_eq_true in Hin.
    apply paginatedItems_subseteq in Hin.
    intros k. unfold handleSelect. simpl. case_match.
    + rewrite elem_of_union, elem_of_singleton. intros [Hk| ->]; [by apply Hs|].
      by exists item.
    + rewrite elem_of_difference. intros [Hk _]. by apply Hs.
  - unfold handleSelectAll. case_match; intros k Hk; simpl in *.
    + apply elem_of_list_to_set, list_elem_of_In, in_map_iff in Hk
        as (item & <- & Hin%list_elem_of_In).
      exists item. split; [|done]. by apply paginatedItems_subseteq.
    + by apply not_elem_of_empty in Hk.
  - unfold handleDownloadSelected_start. by case_match.
  - destruct (pendingDownloads s !! j); [|done]. destruct result; simpl; [|done].
    intros k Hk. simpl in Hk. by apply not_elem_of_empty in Hk.
  - unfold handleUploadComplete, fetchItems_start.
    by destruct (negb (s3Client s)).
  - by destruct open.
  - unfold previousClick. by case_match.
  - unfold nextClick. by case_match.
Qed.

Lemma reachable_selectionListed config s :
  reachable config anyAnswer s → selectionListed s.
Proof.
  induction 1 as [|s ev s' out _ IH _ Hstep].
  - intros k Hk. by apply not_elem_of_empty in Hk.
  - apply step_Some in Hstep as [En ->].
    by apply selectionListed_runEffects, (selectionListed_handle config).
Qed.

Lemma size_selectedKeys_0 s : (size (selectedKeys s) =? 0)%nat = true ↔ selectedKeys s = ∅.
Proof.
  rewrite Nat.eqb_eq. split; [|by intros ->].
  intros H. by apply leibniz_equiv, size_empty_inv.
Qed.

Lemma itemsToDownload_nil s :
  selectionListed s → itemsToDownload s = [] → selectedKeys s = ∅.
Proof.
  intros Hs Hnil. apply set_eq. intros k. split; [|by intros ?%not_elem_of_empty].
  intros Hk. exfalso. destruct (Hs k Hk) as (item & Hin & <-).
  unfold itemsToDownload in Hnil. apply fmap_nil_inv in Hnil.
  assert (In item (List.filter (λ item, isSelected s (itemKey item)) (items s))) as Hf.
  { apply filter_In. split; [by apply list_elem_of_In|].
    by apply bool_decide_eq_true_2. }
  by rewrite Hnil in Hf.
Qed.

(** The whole export agrees with its two halves: the click, then the
    settlement of the request the click added. *)
Lemma handleDownloadSelected_split config zip s :
  selectedKeys s ≠ ∅ →
  let '(s1, out1) := handleDownloadSelected_start s in
  let '(s2, out2) :=
    handle config
      (DownloadSettled (length (pendingDownloads s)) (zip (itemsToDownload s))) s1 in
  handleDownloadSelected zip s = (s2, out1 ++ out2).
Proof.
  intros Hne. unfold handleDownloadSelected_start, handleDownloadSelected.
  destruct (size (selectedKeys s) =? 0)%nat eqn:E.
  { by apply size_selectedKeys_0 in E. }
  cbn [handle pendingDownloads setPendingDownloads].
  rewrite list_lookup_middle by done.
  rewrite (delete_middle _ []), app_nil_r.
  unfold handleDownloadSelected_settle.
  destruct s; destruct (zip _); reflexivity.
Qed.

(** C8, as the code has it.  When the assembled request list is empty the
    selection is empty, and the export is then a silent no-op: the collaborator
    is not called, nothing is reported and the state is unchanged (the download
    button is not even offered).  A failure is reported exactly when the
    selection is not empty and the collaborator call fails. *)
Theorem export_of_empty_request_is_silent config s zip :
  reachable config anyAnswer s →
  itemsToDownload s = [] →
  selectedKeys s = ∅
  ∧ handleDownloadSelected zip s = (s, [])
  ∧ enabled config s DownloadClicked = false
  ∧ (∀ s0 : State, ToastDownloadFailed ∈ (handleDownloadSelected zip s0).2
       ↔ selectedKeys s0 ≠ ∅ ∧ zip (itemsToDownload s0) = None).
Proof.
  intros Hreach Hnil.
  pose proof (itemsToDownload_nil s (reachable_selectionListed _ _ Hreach) Hnil) as Hsel.
  split; [exact Hsel|]. split; [|split].
  - unfold handleDownloadSelected. by rewrite (proj2 (size_selectedKeys_0 s) Hsel).
  - simpl. by rewrite Hsel, size_empty.
  - intros s0. unfold handleDownloadSelected.
    destruct (size (selectedKeys s0) =? 0)%nat eqn:E.
    + apply size_selectedKeys_0 in E. simpl. rewrite elem_of_nil. tauto.
    + assert (selectedKeys s0 ≠ ∅) as Hne.
      { intros H%size_selectedKeys_0. congruence. }
      destruct (zip (itemsToDownload s0)) as [b|]; simpl;
        rewrite !elem_of_cons, elem_of_nil; split.
      * intros [?|[?|[?|[]]]]; discriminate.
      * by intros [_ ?].
      * done.
      * intros _. by right; left.
Qed.

(** Thirteen items listed, none selected. *)
Lemma export_of_empty_request_is_silent_witness :
  reachable docsConfig anyAnswer (after listedTrace)
  ∧ itemsToDownload (after listedTrace) = []
  ∧ handleDownloadSelected (fun _ => None) (after listedTrace)
    = (after listedTrace, []).
Proof.
  assert (H : reachable docsConfig anyAnswer (after listedTrace)).
  { apply after_reachable. vm_compute. reflexivity. }
  assert (Hnil : itemsToDownload (after listedTrace) = []).
  { vm_compute. reflexivity. }
  split; [exact H|]. split; [exact Hnil|].
  exact (proj1 (proj2 (export_of_empty_request_is_silent docsConfig _ (fun _ => None) H Hnil))).
Defined.

(** C8, counterexample.  With thirteen items listed and nothing selected
    the request list is empty; the export reports no failure, even with a
    collaborator that would fail: it does nothing at all. *)
Lemma export_of_empty_selection_reports_nothing :
  reachable docsConfig anyAnswer (after listedTrace)
  ∧ length (items (after listedTrace)) = 13
  ∧ itemsToDownload (after listedTrace) = []
  ∧ (handleDownloadSelected (fun _ => None) (after listedTrace)).2 = []
  ∧ ToastDownloadFailed ∉ (handleDownloadSelected (fun _ => None) (after listedTrace)).2.
Proof.
  split; [apply after_reachable; vm_compute; reflexivity|].
  split; [vm_compute; reflexivity|]. split; [vm_compute; reflexivity|].
  assert (E : (handleDownloadSelected (fun _ => None) (after listedTrace)).2 = [])
    by (vm_compute; reflexivity).
  split; [exact E|]. rewrite E. apply not_elem_of_nil.
Qed.

(** C9.  With a selection that is not empty: when the archive call
    succeeds the selection is empty afterwards, and when it fails the selection
    is what it was before the attempt.  The same holds of the two halves of the
    export: the click leaves the selection alone, a settlement with an error
    leaves it alone, a settlement with an archive empties it. *)
Theorem export_selection_after_outcome config s zip :
  selectedKeys s ≠ ∅ →
  (∀ base64Zip, zip (itemsToDownload s) = Some base64Zip →
     selectedKeys (handleDownloadSelected zip s).1 = ∅)
  ∧ (zip (itemsToDownload s) = None →
     selectedKeys (handleDownloadSelected zip s).1 = selectedKeys s)
  ∧ (∀ s1 out1, step config s DownloadClicked = Some (s1, out1) →
       selectedKeys s1 = selectedKeys s
       ∧ ∀ j result s2 out2,
           step config s1 (DownloadSettled j result) = Some (s2, out2) →
           selectedKeys s2 = match result with
                             | Some _ => ∅
                             | None => selectedKeys s
                             end).
Proof.
  intros Hne.
  assert ((size (selectedKeys s) =? 0)%nat = false) as E.
  { destruct (size (selectedKeys s) =? 0)%nat eqn:E; [|done].
    by apply size_selectedKeys_0 in E. }
  split; [|split].
  - intros b Hb. unfold handleDownloadSelected. by rewrite E, Hb.
  - intros Hb. unfold handleDownloadSelected. by rewrite E, Hb.
  - intros s1 out1 Hstep. apply step_Some in Hstep as [_ ->].
    destruct (runEffects_frame s (handle config DownloadClicked s).1) as (_ & _ & _ & E1 & _).
    assert (selectedKeys (handle config DownloadClicked s).1 = selectedKeys s) as E2.
    { simpl. unfold handleDownloadSelected_start. by rewrite E. }
    rewrite E2 in E1. split; [exact E1|].
    set (s1 := (runEffects s (handle config DownloadClicked s).1).1) in *.
    intros j result s2 out2 Hstep2. apply step_Some in Hstep2 as [En ->].
    destruct (runEffects_frame s1 (handle config (DownloadSettled j result) s1).1)
      as (_ & _ & _ & -> & _).
    simpl in En. apply Nat.ltb_lt, lookup_lt_is_Some_2 in En as [request Hreq].
    cbn [handle]. rewrite Hreq. destruct result; simpl; [done|exact E1].
Qed.

(** C10.  A click on the row of a folder whose prefix is selected does not
    navigate: the prefix, the search query and the items stay as they are, and
    no listing is requested. *)
Theorem selected_folder_click_does_not_navigate config s p k onNameCell e s' out :
  Prefix p = Some k → Some k ∈ selectedKeys s →
  step config s (RowClicked (folder p) onNameCell e) = Some (s', out) →
  prefix s' = prefix s ∧ searchQuery s' = searchQuery s ∧ items s' = items s
  ∧ pendingListings s' = pendingListings s.
Proof.
  intros Hk Hsel Hstep. apply step_Some in Hstep as [_ ->].
  set (s1 := (handle config (RowClicked (folder p) onNameCell e) s).1).
  assert (prefix s1 = prefix s ∧ searchQuery s1 = searchQuery s ∧ items s1 = items s
          ∧ pendingListings s1 = pendingListings s ∧ s3Client s1 = s3Client s)
    as (E1 & E2 & E3 & E4 & E5).
  { subst s1. simpl.
    assert (isSelected s (Some k) = true) as Hb by by apply bool_decide_eq_true_2.
    destruct onNameCell; unfold nameCellClick, handleItemClick; simpl;
      rewrite Hk, ?Hb; repeat case_match; done. }
  destruct (runEffects_frame s s1) as (F1 & F2 & F3 & _).
  rewrite F1, F2, F3, runEffects_pendingListings, E1, E2, E3, E4, E5.
  rewrite bool_decide_eq_false_2 by (by intros ?).
  by rewrite Bool.eqb_reflx.
Qed.

(** The first two files are ticked (scenario 5 of the specification). *)
Definition twoTickedTrace : list Event :=
  tickedTrace ++ [ItemChecked (file (mkFile "docs/b.txt" 200)) (Checked true)].

(** Two files selected: an archive empties the selection, an error keeps it. *)
Lemma export_selection_after_outcome_witness :
  selectedKeys (after twoTickedTrace) = {[ Some "docs/a.txt"; Some "docs/b.txt" ]}
  ∧ selectedKeys (after twoTickedTrace) ≠ ∅
  ∧ selectedKeys (handleDownloadSelected (fun _ => Some "UEsDBA==") (after twoTickedTrace)).1
    = ∅
  ∧ selectedKeys (handleDownloadSelected (fun _ => None) (after twoTickedTrace)).1
    = selectedKeys (after twoTickedTrace).
Proof.
  assert (E : selectedKeys (after twoTickedTrace)
              = {[ Some "docs/a.txt"; Some "docs/b.txt" ]}).
  { vm_compute. reflexivity. }
  assert (Hne : selectedKeys (after twoTickedTrace) ≠ ∅).
  { intros Hempty.
    assert (Hin : Some "docs/a.txt" ∈ selectedKeys (after twoTickedTrace)).
    { rewrite E. apply elem_of_union_l. by apply elem_of_singleton_2. }
    rewrite Hempty in Hin. by apply not_elem_of_empty in Hin. }
  split; [exact E|]. split; [exact Hne|]. split.
  - apply (proj1 (export_selection_after_outcome docsConfig _
                    (fun _ => Some "UEsDBA==") Hne) "UEsDBA==").
    reflexivity.
  - apply (proj1 (proj2 (export_selection_after_outcome docsConfig _
                           (fun _ => None) Hne))).
    reflexivity.
Defined.

(** The folder [docs/img/] is ticked. *)
Definition folderTickedTrace : list Event :=
  listedTrace ++ [ItemChecked (folder imgFolder) (Checked true)].

(** ... and its name is clicked. *)
Definition folderClickedTrace : list Event :=
  folderTickedTrace ++ [RowClicked (folder imgFolder) true plainClick].

(** The details open, the browser stays in [docs/]. *)
Lemma selected_folder_click_does_not_navigate_witness :
  Some "docs/img/" ∈ selectedKeys (after folderTickedTrace)
  ∧ step docsConfig (after folderTickedTrace)
      (RowClicked (folder imgFolder) true plainClick)
    = Some (after folderClickedTrace, [])
  ∧ prefix (after folderClickedTrace) = prefix (after folderTickedTrace)
  ∧ searchQuery (after folderClickedTrace) = searchQuery (after folderTickedTrace)
  ∧ items (after folderClickedTrace) = items (after folderTickedTrace)
  ∧ pendingListings (after folderClickedTrace) = pendingListings (after folderTickedTrace).
Proof.
  assert (Hsel : Some "docs/img/" ∈ selectedKeys (after folderTickedTrace)).
  { apply (bool_decide_eq_true_1 _). vm_compute. reflexivity. }
  assert (Hstep : step docsConfig (after folderTickedTrace)
                    (RowClicked (folder imgFolder) true plainClick)
                  = Some (after folderClickedTrace, [])).
  { vm_compute. reflexivity. }
  split; [exact Hsel|]. split; [exact Hstep|].
  exact (selected_folder_click_does_not_navigate docsConfig _ imgFolder "docs/img/"
           true plainClick _ _ eq_refl Hsel Hstep).
Defined.

(** ** The scenarios of the specification *)

(** Scenario 1: twelve files under [docs/] and ten items per page (here with
    one folder more): two pages. *)
Example scenario_pages :
  length (paginatedItems (after listedTrace)) = 10
  ∧ totalPages (after listedTrace) = 2%Z
  ∧ length (paginatedItems (after pagedTrace)) = 3.
Proof. repeat split; vm_compute; reflexivity. Qed.

(** Scenario 2: a folder [docs/img/] and a zero-size object of the same key;
    the folder is listed, the placeholder is not. *)
Example scenario_placeholder :
  fetchItems_items "docs/"
    {| CommonPrefixes := Some [imgFolder];
       Contents := Some [mkFile "docs/img/" 0; mkFile "docs/readme.txt" 12] |}
  = [folder imgFolder; file (mkFile "docs/readme.txt" 12)].
Proof. reflexivity. Qed.

(** Scenario 3: the query "report" keeps [report.pdf] and drops [readme.txt]. *)
Example scenario_search :
  filteredItems
    (setSearchQuery
       (setItems (initialState docsConfig)
          [file (mkFile "docs/report.pdf" 10); file (mkFile "docs/readme.txt" 12)])
       "report")
  = [file (mkFile "docs/report.pdf" 10)].
Proof. vm_compute. reflexivity. Qed.

(** * Further properties of the browser *)

Local Open Scope nat_scope.

(** ** More on strings *)

Lemma String_app_nil_r s : s +:+ "" = s.
Proof. induction s as [|a s IH]; [reflexivity|]. by rewrite String_app_cons, IH. Qed.

Lemma String_app_assoc a b c : (a +:+ b) +:+ c = a +:+ (b +:+ c).
Proof.
  induction a as [|x a IH]; [reflexivity|]. by rewrite !String_app_cons, IH.
Qed.

Lemma String_length_app a b :
  String.length (a +:+ b) = String.length a + String.length b.
Proof.
  induction a as [|x a IH]; [reflexivity|]. rewrite String_app_cons. simpl.
  by rewrite IH.
Qed.

Lemma sliceFrom_app a b : Js.sliceFrom (String.length a) (a +:+ b) = b.
Proof. induction a as [|x a IH]; [reflexivity|exact IH]. Qed.

(** A string is the part before a position followed by the slice from it. *)
Lemma sliceFrom_split n s :
  n ≤ String.length s → ∃ a, s = a +:+ Js.sliceFrom n s ∧ String.length a = n.
Proof.
  revert s. induction n as [|n IH]; intros s Hn.
  - by exists "".
  - destruct s as [|c s]; simpl in Hn; [lia|].
    destruct (IH s ltac:(lia)) as (a & Ha & Hlen).
    exists (String c a). simpl. rewrite String_app_cons, <- Ha. by rewrite Hlen.
Qed.

Lemma endsWith_app a p : Js.endsWith (a +:+ p) p = true.
Proof.
  unfold Js.endsWith. rewrite String_length_app.
  replace (String.length a + String.length p - String.length p)
    with (String.length a) by lia.
  rewrite sliceFrom_app, String.eqb_refl, andb_true_r.
  apply Nat.leb_le. lia.
Qed.

Lemma endsWith_spec s p : Js.endsWith s p = true ↔ ∃ a, s = a +:+ p.
Proof.
  split.
  - unfold Js.endsWith. rewrite andb_true_iff, Nat.leb_le, String.eqb_eq.
    intros [Hlen Hs].
    destruct (sliceFrom_split (String.length s - String.length p) s ltac:(lia))
      as (a & Ha & _).
    exists a. by rewrite Hs in Ha.
  - intros [a ->]. apply endsWith_app.
Qed.

Lemma truthy_true s : Js.truthy s = true ↔ s ≠ "".
Proof. unfold Js.truthy. by rewrite negb_true_iff, String.eqb_neq. Qed.

Lemma String_app_snoc_ne a b c : a +:+ String b c ≠ "".
Proof. by destruct a. Qed.

(** ** The root folder *)

(** X1.  The root folder is empty exactly when no folder, or an empty one, is
    configured; otherwise it ends with a slash.  Normalising is idempotent:
    a configuration whose folder is already a root folder keeps it. *)
Theorem rootFolder_normal_form config :
  (rootFolder config = "" ↔ folder_ config = None ∨ folder_ config = Some "")
  ∧ (rootFolder config = ""
     ∨ Js.endsWith (rootFolder config) "/" = true
       ∧ ∃ base, rootFolder config = base +:+ "/")
  ∧ rootFolder {| bucket := bucket config; folder_ := Some (rootFolder config) |}
    = rootFolder config.
Proof.
  unfold rootFolder. simpl. destruct (folder_ config) as [f|].
  2: { split; [split; auto|]. split; [by left|reflexivity]. }
  destruct (Js.truthy f) eqn:Ht; simpl.
  2: { assert (f = "") as ->.
       { destruct (decide (f = "")) as [|Hne]; [done|].
         apply truthy_true in Hne. congruence. }
       split; [split; auto|]. split; [by left|reflexivity]. }
  pose proof (proj1 (truthy_true f) Ht) as Hne.
  destruct (Js.endsWith f "/") eqn:He.
  - split; [|split].
    + split; [done|]. intros [[=]|[= ->]]. done.
    + right. split; [done|]. by apply endsWith_spec.
    + by rewrite Ht, He.
  - assert (Js.truthy (f +:+ "/") = true) as Ht'.
    { apply truthy_true, String_app_snoc_ne. }
    split; [|split].
    + split.
      * intros E. by apply String_app_snoc_ne in E.
      * intros [[=]|[= ->]]. done.
    + right. split; [apply endsWith_app|]. by exists f.
    + by rewrite Ht', endsWith_app.
Qed.

(** ** Splitting and joining *)

Lemma includes_cons_sep c s sep :
  Js.includes (String c s) (String sep "")
  = Ascii.eqb sep c || Js.includes s (String sep "").
Proof. simpl. by rewrite andb_true_r. Qed.

Lemma split_cons_shape sep s : ∃ w ws, Js.split sep s = w :: ws.
Proof.
  induction s as [|c s (w & ws & IH)]; simpl; [by eexists _, _|].
  destruct (Ascii.eqb c sep); [by eexists _, _|]. rewrite IH. by eexists _, _.
Qed.

(** Splitting a string that does not contain the separator gives the string. *)
Lemma split_sepfree sep s :
  Js.includes s (String sep "") = false → Js.split sep s = [s].
Proof.
  induction s as [|c s IH]; [done|].
  rewrite includes_cons_sep, orb_false_iff, Ascii.eqb_sym. intros [Hc Hs].
  simpl. by rewrite Hc, (IH Hs).
Qed.

Lemma split_app_sep sep a b :
  Js.split sep (a +:+ String sep b) = Js.split sep a ++ Js.split sep b.
Proof.
  induction a as [|c a IH].
  - change ("" +:+ String sep b) with (String sep b). simpl.
    by rewrite Ascii.eqb_refl.
  - rewrite String_app_cons. simpl. rewrite IH.
    destruct (Ascii.eqb c sep); [done|].
    by destruct (split_cons_shape sep a) as (w & ws & ->).
Qed.

(** [split] undoes [join] on pieces that do not contain the separator. *)
Lemma split_join sep parts :
  parts ≠ [] → Forall (λ p, Js.includes p (String sep "") = false) parts →
  Js.split sep (Js.join (String sep "") parts) = parts.
Proof.
  intros Hne Hall. induction Hall as [|x rest Hx Hrest IH]; [done|].
  destruct rest as [|y rest]; [by apply split_sepfree|].
  change (Js.join (String sep "") (x :: y :: rest))
    with (x +:+ String sep "" +:+ Js.join (String sep "") (y :: rest)).
  change (String sep "" +:+ Js.join (String sep "") (y :: rest))
    with (String sep (Js.join (String sep "") (y :: rest))).
  rewrite split_app_sep, (split_sepfree _ _ Hx), IH by done. done.
Qed.

Lemma filterBoolean_truthy parts :
  Forall (λ p, p ≠ "") parts → Js.filterBoolean (parts ++ [""]) = parts.
Proof.
  unfold Js.filterBoolean. induction 1 as [|x rest Hx _ IH]; [done|].
  simpl. apply truthy_true in Hx. by rewrite Hx, IH.
Qed.

(** [slice] between two indices that are not negative. *)
Lemma slice_take_drop {A} (l : list A) (a b : Z) :
  (0 ≤ a ≤ b)%Z →
  Js.slice l a b = take (Z.to_nat (b - a)) (drop (Z.to_nat a) l).
Proof.
  intros Hab. unfold Js.slice, Js.sliceIndex.
  destruct (Z.ltb_spec a 0); [lia|]. destruct (Z.ltb_spec b 0); [lia|].
  destruct (Z_le_gt_dec a (Z.of_nat (length l))) as [Hal|Hal].
  - rewrite (Z.min_l a) by lia.
    destruct (Z_le_gt_dec b (Z.of_nat (length l))) as [Hbl|Hbl].
    + rewrite (Z.min_l b), Z.max_l by lia. done.
    + rewrite (Z.min_r b), Z.max_l by lia.
      rewrite !take_ge; [done|rewrite length_drop; lia..].
  - rewrite (Z.min_r a) by lia. rewrite Nat2Z.id.
    rewrite !drop_ge by lia. by rewrite !take_nil.
Qed.

(** ** Breadcrumbs *)

(** The relative path of the folder reached through the given components. *)
Definition folderPath (parts : list string) : string :=
  match parts with
  | [] => ""
  | _ => Js.join "/" parts +:+ "/"
  end.

(** X2.  When the current prefix is the root folder followed by the
    components [parts] (each non-empty and without a slash), the breadcrumbs
    are "home" followed by these components, breadcrumb [i] leads to the root
    folder followed by the first [i] components, the first breadcrumb leads to
    the root folder and the last one to the current prefix. *)
Theorem breadcrumbs_round_trip config s parts :
  Forall (λ p, p ≠ "" ∧ Js.includes p "/" = false) parts →
  prefix s = rootFolder config +:+ folderPath parts →
  breadcrumbParts config s = "home" :: parts
  ∧ (∀ i, i ≤ length parts →
       fullPath config s i = rootFolder config +:+ folderPath (take i parts))
  ∧ fullPath config s 0 = rootFolder config
  ∧ fullPath config s (length parts) = prefix s.
Proof.
  intros Hparts Hprefix.
  assert (Hne : Forall (λ p, p ≠ "") parts)
    by (eapply Forall_impl; [exact Hparts|by intros ? []]).
  assert (Hfree : Forall (λ p, Js.includes p "/" = false) parts)
    by (eapply Forall_impl; [exact Hparts|by intros ? []]).
  assert (Hcrumbs : breadcrumbParts config s = "home" :: parts).
  { unfold breadcrumbParts, relativePrefix.
    rewrite Hprefix, startsWith_app, sliceFrom_app. f_equal.
    destruct parts as [|x rest]; [done|].
    unfold folderPath. rewrite split_app_sep, split_join by done.
    by apply filterBoolean_truthy. }
  assert (Hfull : ∀ i, i ≤ length parts →
            fullPath config s i = rootFolder config +:+ folderPath (take i parts)).
  { intros i Hi. unfold fullPath, relativePath. f_equal.
    destruct i as [|i]; [by rewrite take_0|].
    rewrite Hcrumbs, slice_take_drop by lia.
    replace (Z.to_nat (Z.of_nat (S i) + 1 - 1)) with (S i) by lia.
    change (drop (Z.to_nat 1) ("home" :: parts)) with parts.
    destruct parts as [|x rest]; [simpl in Hi; lia|]. done. }
  split; [exact Hcrumbs|]. split; [exact Hfull|]. split.
  - rewrite Hfull by lia. rewrite take_0. apply String_app_nil_r.
  - rewrite Hfull by lia. by rewrite firstn_all, Hprefix.
Qed.

(** In [docs/img/], under the root [docs/]. *)
Lemma breadcrumbs_round_trip_witness :
  Forall (λ p, p ≠ "" ∧ Js.includes p "/" = false) ["img"]
  ∧ prefix (after enteredTrace) = rootFolder docsConfig +:+ folderPath ["img"]
  ∧ breadcrumbParts docsConfig (after enteredTrace) = ["home"; "img"]
  ∧ fullPath docsConfig (after enteredTrace) 0 = "docs/"
  ∧ fullPath docsConfig (after enteredTrace) 1 = "docs/img/".
Proof.
  assert (H1 : Forall (λ p, p ≠ "" ∧ Js.includes p "/" = false) ["img"]).
  { repeat constructor. discriminate. }
  assert (H2 : prefix (after enteredTrace)
               = rootFolder docsConfig +:+ folderPath ["img"]).
  { vm_compute. reflexivity. }
  split; [exact H1|]. split; [exact H2|].
  destruct (breadcrumbs_round_trip docsConfig (after enteredTrace) ["img"] H1 H2)
    as (Hc & _ & H0 & Hl).
  split; [exact Hc|]. split; [exact H0|].
  etrans; [exact Hl|]. vm_compute. reflexivity.
Defined.

(** ** File icons *)

(** The icon components [getFileIcon] chooses between. *)
Inductive Icon := IconFile | IconFileImage | IconMusic | IconVideo | IconFileText.

(** [getFileIcon]: the icon is chosen by [key.split('.').pop()?.toLowerCase()]. *)
Definition getFileIcon (k : option string) : Icon :=
  match k with
  | None => IconFile
  | Some k =>
      if negb (Js.truthy k) then IconFile
      else
        match Js.toLowerCase <$> last (Js.split "."%char k) with
        | Some extension =>
            match extension with
            | "png" | "jpg" | "jpeg" | "gif" | "svg" => IconFileImage
            | "mp3" | "wav" => IconMusic
            | "mp4" | "mov" | "avi" => IconVideo
            | "txt" | "md" | "docx" | "pdf" => IconFileText
            | _ => IconFile
            end
        | None => IconFile
        end
  end.

Lemma lowerAscii_idem c : Js.lowerAscii (Js.lowerAscii c) = Js.lowerAscii c.
Proof. by destruct c as [[] [] [] [] [] [] [] []]. Qed.

Lemma lowerAscii_eqb_dot c : Ascii.eqb (Js.lowerAscii c) "." = Ascii.eqb c ".".
Proof. by destruct c as [[] [] [] [] [] [] [] []]. Qed.

Lemma toLowerCase_idem s : Js.toLowerCase (Js.toLowerCase s) = Js.toLowerCase s.
Proof. induction s as [|c s IH]; simpl; [done|]. by rewrite lowerAscii_idem, IH. Qed.

Lemma truthy_toLowerCase s : Js.truthy (Js.toLowerCase s) = Js.truthy s.
Proof. by destruct s. Qed.

Lemma split_dot_toLowerCase s :
  Js.split "." (Js.toLowerCase s) = Js.toLowerCase <$> Js.split "." s.
Proof.
  induction s as [|c s IH]; simpl; [done|].
  rewrite lowerAscii_eqb_dot, IH. destruct (Ascii.eqb c "."); [done|].
  by destruct (split_cons_shape "." s) as (w & ws & ->).
Qed.

Lemma last_split_app_sep sep a b :
  last (Js.split sep (a +:+ String sep b)) = last (Js.split sep b).
Proof.
  rewrite split_app_sep.
  destruct (split_cons_shape sep b) as (w & ws & ->).
  by rewrite last_app_cons.
Qed.

(** X3.  The icon of a key depends only on what follows its last dot, and
    not on the case of the letters: a key [a.b] has the icon of [b], and a key
    has the icon of its lower-case form.  Without a key, or with an empty one,
    the icon is the plain file. *)
Theorem getFileIcon_extension a b k :
  getFileIcon (Some (a +:+ "." +:+ b)) = getFileIcon (Some b)
  ∧ getFileIcon (Some (Js.toLowerCase k)) = getFileIcon (Some k)
  ∧ getFileIcon None = IconFile
  ∧ getFileIcon (Some "") = IconFile.
Proof.
  split; [|split; [|done]].
  - unfold getFileIcon.
    change ("." +:+ b) with (String "."%char b).
    rewrite last_split_app_sep.
    replace (Js.truthy (a +:+ String "." b)) with true
      by (symmetry; apply truthy_true, String_app_snoc_ne).
    simpl negb. destruct b as [|c b]; [done|]. done.
  - unfold getFileIcon.
    rewrite truthy_toLowerCase, split_dot_toLowerCase, fmap_last.
    destruct (last (Js.split "." k)) as [ext|]; simpl; [|done].
    by rewrite toLowerCase_idem.
Qed.

Example getFileIcon_examples :
  getFileIcon (Some "docs/Photo.JPG") = IconFileImage
  ∧ getFileIcon (Some "docs/archive.tar.gz") = IconFile
  ∧ getFileIcon (Some "notes.md") = IconFileText
  ∧ getFileIcon (Some "pdf") = IconFileText.
Proof. repeat split; reflexivity. Qed.

(** ** Display names and search *)

Lemma replace_unfold pat rep s :
  Js.replace pat rep s
  = if Js.startsWith s pat then rep +:+ Js.sliceFrom (String.length pat) s
    else match s with
         | EmptyString => EmptyString
         | String c s' => String c (Js.replace pat rep s')
         end.
Proof. by destruct s. Qed.

Lemma replace_prefix_app pfx rest : Js.replace pfx "" (pfx +:+ rest) = rest.
Proof. by rewrite replace_unfold, startsWith_app, sliceFrom_app. Qed.

Lemma startsWith_cons_sep c s sep :
  Js.startsWith (String c s) (String sep "") = Ascii.eqb sep c.
Proof. simpl. apply andb_true_r. Qed.

Lemma replace_first_slash name :
  Js.includes name "/" = false → Js.replace "/" "" (name +:+ "/") = name.
Proof.
  induction name as [|c name IH]; [done|].
  rewrite includes_cons_sep, orb_false_iff. intros [Hc Hname].
  rewrite String_app_cons, replace_unfold, startsWith_cons_sep.
  by rewrite Hc, (IH Hname).
Qed.

Lemma includes_refl s : Js.includes s s = true.
Proof. destruct s; simpl; by rewrite ?Ascii.eqb_refl, ?startsWith_refl. Qed.

(** X4.  Under the current prefix, the name shown for a file is its key
    with the prefix stripped, and the name shown for a folder whose last
    component has no slash is that component, without the trailing slash.  An
    entry without a key has no name. *)
Theorem displayName_strips_prefix pfx name sz lm :
  Js.includes name "/" = false →
  displayName pfx (file {| Key := Some (pfx +:+ name); Size := sz; LastModified := lm |})
  = Some name
  ∧ displayName pfx (folder {| Prefix := Some (pfx +:+ name +:+ "/") |}) = Some name
  ∧ displayName pfx (file {| Key := None; Size := sz; LastModified := lm |}) = None
  ∧ displayName pfx (folder {| Prefix := None |}) = None.
Proof.
  intros Hname. simpl. rewrite !replace_prefix_app.
  by rewrite (replace_first_slash _ Hname).
Qed.

Lemma displayName_strips_prefix_witness :
  Js.includes "img" "/" = false
  ∧ displayName "docs/" (folder imgFolder) = Some "img"
  ∧ displayName "docs/" (file (mkFile "docs/img" 7)) = Some "img".
Proof.
  assert (H : Js.includes "img" "/" = false) by reflexivity.
  split; [exact H|].
  destruct (displayName_strips_prefix "docs/" "img" (Some 7%Z) None H) as (Hf & Hd & _).
  split; [exact Hd|exact Hf].
Defined.

(** X5.  What is shown is a subsequence of the listing: the search keeps a
    subsequence of the items and a page is a subsequence of the search result,
    so neither adds, repeats or reorders an entry.  Under a non-empty query an
    entry without a key is never shown. *)
Theorem shown_items_sublist s :
  filteredItems s `sublist_of` items s
  ∧ paginatedItems s `sublist_of` filteredItems s
  ∧ (searchQuery s = "" ∨
     ∀ item, item ∈ filteredItems s → itemKey item ≠ None).
Proof.
  split; [|split].
  - unfold filteredItems. case_match; [done|].
    induction (items s) as [|x l IH]; simpl; [done|].
    case_match; by constructor.
  - unfold paginatedItems, Js.slice.
    etrans; [apply sublist_take|apply sublist_drop].
  - destruct (decide (searchQuery s = "")) as [|Hq]; [by left|right].
    intros item Hin. unfold filteredItems in Hin.
    apply truthy_true in Hq. rewrite Hq in Hin. simpl in Hin.
    apply list_elem_of_In, filter_In in Hin as [_ Hm].
    unfold matchesSearch in Hm. destruct item as [p|c]; simpl in *.
    + by destruct (Prefix p).
    + by destruct (Key c).
Qed.

(** X6.  An item of the listing is found by its own displayed name: with
    that name as the search query, the item is among the filtered items. *)
Theorem found_by_displayName s item name :
  item ∈ items s → displayName (prefix s) item = Some name →
  item ∈ filteredItems (setSearchQuery s name).
Proof.
  intros Hin Hname. unfold filteredItems. simpl.
  case_match; [done|].
  apply list_elem_of_In, filter_In. split; [by apply list_elem_of_In|].
  unfold matchesSearch. simpl. rewrite Hname. apply includes_refl.
Qed.

Lemma found_by_displayName_witness :
  folder imgFolder ∈ items (after listedTrace)
  ∧ displayName (prefix (after listedTrace)) (folder imgFolder) = Some "img"
  ∧ folder imgFolder ∈ filteredItems (setSearchQuery (after listedTrace) "img").
Proof.
  assert (Hin : folder imgFolder ∈ items (after listedTrace)).
  { apply (bool_decide_eq_true_1 _). vm_compute. reflexivity. }
  assert (Hn : displayName (prefix (after listedTrace)) (folder imgFolder) = Some "img").
  { vm_compute. reflexivity. }
  split; [exact Hin|]. split; [exact Hn|].
  exact (found_by_displayName _ _ _ Hin Hn).
Defined.

(** ** Pages *)

Lemma paginatedItems_take_drop s :
  (0 < itemsPerPage s)%Z → (1 ≤ currentPage s)%Z →
  paginatedItems s
  = take (Z.to_nat (itemsPerPage s))
      (drop (Z.to_nat (currentPage s - 1) * Z.to_nat (itemsPerPage s))
         (filteredItems s)).
Proof.
  intros Hn Hp. unfold paginatedItems, endIndex, startIndex.
  rewrite slice_take_drop by nia. f_equal; [f_equal; lia|f_equal; nia].
Qed.

(** X7.  In every reachable state the page shows the items from position
    [(currentPage - 1) * itemsPerPage] on, at most [itemsPerPage] of them, and
    it is empty exactly when the page index is beyond [totalPages]. *)
Theorem paginatedItems_length config s :
  reachable config anyAnswer s →
  length (paginatedItems s)
  = Nat.min (Z.to_nat (itemsPerPage s))
      (length (filteredItems s)
       - Z.to_nat (currentPage s - 1) * Z.to_nat (itemsPerPage s))
  ∧ length (paginatedItems s) ≤ Z.to_nat (itemsPerPage s)
  ∧ (paginatedItems s = [] ↔ (totalPages s < currentPage s)%Z).
Proof.
  intros Hreach. destruct (reachable_pageCellsOk _ _ Hreach) as [Hsz Hpg].
  pose proof (pageSizeOptions_pos _ Hsz) as Hpos.
  pose proof (ceilDiv_spec (Z.of_nat (length (filteredItems s))) _ Hpos) as Hceil.
  fold (totalPages s) in Hceil.
  assert (Hlen : length (paginatedItems s)
    = Nat.min (Z.to_nat (itemsPerPage s))
        (length (filteredItems s)
         - Z.to_nat (currentPage s - 1) * Z.to_nat (itemsPerPage s))).
  { rewrite paginatedItems_take_drop by done. by rewrite length_take, length_drop. }
  split; [exact Hlen|]. split; [lia|].
  rewrite <- length_zero_iff_nil, Hlen. split; intros H; nia.
Qed.

Lemma paginatedItems_length_witness :
  reachable docsConfig anyAnswer (after pagedTrace)
  ∧ length (paginatedItems (after pagedTrace)) = 3
  ∧ length (paginatedItems (after pagedTrace))
    ≤ Z.to_nat (itemsPerPage (after pagedTrace)).
Proof.
  assert (H : reachable docsConfig anyAnswer (after pagedTrace)).
  { apply after_reachable. vm_compute. reflexivity. }
  split; [exact H|]. split; [vm_compute; reflexivity|].
  exact (proj1 (proj2 (paginatedItems_length docsConfig _ H))).
Defined.

(** The items shown when the page index is [p]. *)
Definition pageAt (s : State) (p : Z) : list S3Item :=
  paginatedItems (setCurrentPage s p).

(** Cutting a list into consecutive chunks of [n] and gluing them back. *)
Lemma concat_chunks {A} (n k : nat) (l : list A) :
  0 < n → length l ≤ k * n →
  concat (map (λ j, take n (drop (j * n) l)) (seq 0 k)) = l.
Proof.
  intros Hn. revert l. induction k as [|k IH]; intros l Hl.
  - simpl in *. by destruct l; [|simpl in Hl; lia].
  - rewrite <- cons_seq, <- seq_shift. cbn [map concat]. rewrite map_map, drop_0.
    transitivity (take n l ++ drop n l); [|apply take_drop]. f_equal.
    etrans; [|apply (IH (drop n l)); rewrite length_drop; lia].
    f_equal. apply map_ext. intros j. rewrite drop_drop. do 2 f_equal; lia.
Qed.

(** X8.  The pages 1 to [totalPages] partition the search result: glued
    together in order they give back the filtered items, so every filtered item
    is on exactly one page. *)
Theorem pages_partition config s :
  reachable config anyAnswer s →
  concat (map (λ p, pageAt s (Z.of_nat p)) (seq 1 (Z.to_nat (totalPages s))))
  = filteredItems s.
Proof.
  intros Hreach. destruct (reachable_pageCellsOk _ _ Hreach) as [Hsz Hpg].
  pose proof (pageSizeOptions_pos _ Hsz) as Hpos.
  pose proof (ceilDiv_spec (Z.of_nat (length (filteredItems s))) _ Hpos) as Hceil.
  fold (totalPages s) in Hceil.
  rewrite <- seq_shift, map_map.
  etrans; [|apply (concat_chunks (Z.to_nat (itemsPerPage s))
                     (Z.to_nat (totalPages s))); nia].
  f_equal. apply map_ext. intros j. unfold pageAt.
  rewrite paginatedItems_take_drop by (simpl; lia).
  change (filteredItems (setCurrentPage s (Z.of_nat (S j)))) with (filteredItems s).
  simpl itemsPerPage. simpl currentPage. do 3 f_equal. lia.
Qed.

Lemma pages_partition_witness :
  reachable docsConfig anyAnswer (after listedTrace)
  ∧ totalPages (after listedTrace) = 2%Z
  ∧ pageAt (after listedTrace) 1 ++ pageAt (after listedTrace) 2
    = filteredItems (after listedTrace).
Proof.
  assert (H : reachable docsConfig anyAnswer (after listedTrace)).
  { apply after_reachable. vm_compute. reflexivity. }
  assert (Htp : totalPages (after listedTrace) = 2%Z) by (vm_compute; reflexivity).
  split; [exact H|]. split; [exact Htp|].
  pose proof (pages_partition docsConfig _ H) as Hcat.
  rewrite Htp in Hcat. change (Z.to_nat 2) with 2 in Hcat.
  cbn [seq map concat] in Hcat. rewrite app_nil_r in Hcat. exact Hcat.
Defined.

(** X9.  From a page index between 1 and [totalPages], every pagination
    control leads to a page index in that range; the page links are
    consecutive page numbers and the current page is one of them; and Next
    followed by Previous comes back to the current page, unless it is the last
    one, where Next does nothing. *)
Theorem pagination_controls_in_range s :
  (1 ≤ currentPage s ≤ totalPages s)%Z →
  (1 ≤ currentPage (nextClick s) ≤ totalPages s)%Z
  ∧ (1 ≤ currentPage (previousClick s) ≤ totalPages s)%Z
  ∧ (∀ i, (0 ≤ i < Z.min 5 (totalPages s))%Z → (1 ≤ pageNum s i ≤ totalPages s)%Z)
  ∧ (∃ i, (0 ≤ i < Z.min 5 (totalPages s))%Z ∧ pageNum s i = currentPage s)
  ∧ (∀ i, pageNum s (i + 1) = (pageNum s i + 1)%Z)
  ∧ (currentPage s = totalPages s ∧ nextClick s = s
     ∨ currentPage (previousClick (nextClick s)) = currentPage s).
Proof.
  intros Hrange. split; [|split; [|split; [|split; [|split]]]].
  - unfold nextClick. case_match eqn:E; simpl; [apply Z.ltb_lt in E|]; lia.
  - unfold previousClick. case_match eqn:E; simpl; [apply Z.ltb_lt in E|]; lia.
  - intros i Hi. unfold pageNum. repeat case_match; lia.
  - unfold pageNum.
    destruct (Z.leb_spec (totalPages s) 5).
    { exists (currentPage s - 1)%Z. lia. }
    destruct (Z.leb_spec (currentPage s) 3).
    { exists (currentPage s - 1)%Z. lia. }
    destruct (Z.leb_spec (totalPages s - 2) (currentPage s)).
    { exists (currentPage s - totalPages s + 4)%Z. lia. }
    exists 2%Z. lia.
  - intros i. unfold pageNum. repeat case_match; lia.
  - unfold nextClick. destruct (Z.ltb_spec (currentPage s) (totalPages s)).
    + right. unfold previousClick. simpl.
      destruct (Z.ltb_spec 1 (currentPage s + 1)); simpl; lia.
    + left. split; [lia|done].
Qed.

Lemma pagination_controls_in_range_witness :
  (1 ≤ currentPage (after listedTrace) ≤ totalPages (after listedTrace))%Z
  ∧ currentPage (nextClick (after listedTrace)) = 2%Z
  ∧ (1 ≤ currentPage (nextClick (after listedTrace)) ≤ totalPages (after listedTrace))%Z.
Proof.
  assert (H : (1 ≤ currentPage (after listedTrace) ≤ totalPages (after listedTrace))%Z).
  { vm_compute. split; discriminate. }
  split; [exact H|]. split; [vm_compute; reflexivity|].
  exact (proj1 (pagination_controls_in_range _ H)).
Defined.

(** ** Ticking *)

Lemma paginatedItems_setSelectedKeys s v :
  paginatedItems (setSelectedKeys s v) = paginatedItems s.
Proof. reflexivity. Qed.

(** A set built from a list has as many elements as the list exactly when
    the list has no duplicates. *)
Lemma size_list_to_set_NoDup (l : list (option string)) :
  size (list_to_set l : gset (option string)) ≤ length l
  ∧ (size (list_to_set l : gset (option string)) = length l ↔ NoDup l).
Proof.
  induction l as [|x l [IHle IHeq]].
  - rewrite list_to_set_nil, size_empty. split; [done|]. split; [constructor|done].
  - rewrite list_to_set_cons, NoDup_cons. simpl.
    destruct (decide (x ∈ l)) as [Hin|Hin].
    + assert ({[x]} ∪ list_to_set l = (list_to_set l : gset (option string))) as ->.
      { apply set_eq. intros y. rewrite elem_of_union, elem_of_singleton,
          elem_of_list_to_set. split; [intros [->|]; done|auto]. }
      split; [lia|]. split; [lia|]. by intros [? _].
    + rewrite size_union, size_singleton.
      2: { intros y Hy1%elem_of_singleton Hy2%elem_of_list_to_set. by subst. }
      split; [lia|]. rewrite <- IHeq. split; [intros; split; [done|lia]|intros [_ ?]; lia].
Qed.

(** X10.  After "select all" is ticked, the select-all checkbox shows
    checked exactly when the page is not empty and its items have pairwise
    different keys (with a repeated key it shows indeterminate); after it is
    unticked, the checkbox shows unchecked. *)
Theorem selectAllState_after_handleSelectAll s :
  (selectAllState (handleSelectAll (Checked true) s) = Checked true
   ↔ paginatedItems s ≠ [] ∧ NoDup (itemKey <$> paginatedItems s))
  ∧ (paginatedItems s = []
     ∨ selectAllState (handleSelectAll (Checked true) s) ≠ Checked false)
  ∧ selectAllState (handleSelectAll (Checked false) s) = Checked false.
Proof.
  unfold selectAllState, handleSelectAll. simpl checkedTruthy. cbv iota.
  change (map itemKey (paginatedItems s)) with (itemKey <$> paginatedItems s).
  set (keys := itemKey <$> paginatedItems s).
  assert (Hall : allVisibleKeysSelected (setSelectedKeys s (list_to_set keys))).
  { intros item Hin. rewrite paginatedItems_setSelectedKeys in Hin. simpl.
    apply elem_of_list_to_set. subst keys. by apply list_elem_of_fmap_2. }
  split; [|split].
  - pose proof (areAllVisibleSelected_true (setSelectedKeys s (list_to_set keys))) as Ha.
    rewrite paginatedItems_setSelectedKeys in Ha. simpl selectedKeys in Ha.
    pose proof (proj2 (size_list_to_set_NoDup keys)) as Hnd.
    assert (length keys = length (paginatedItems s)) as Hlen
      by (subst keys; apply length_fmap).
    rewrite Hlen in Hnd.
    destruct (areAllVisibleSelected (setSelectedKeys s (list_to_set keys))) eqn:E.
    + split; [intros _|done]. destruct (proj1 Ha eq_refl) as (? & ? & _).
      split; [done|]. by apply Hnd.
    + split; [by case_match|]. intros [Hne Hk]. assert (false = true); [|done].
      apply Ha. split; [done|]. split; [by apply Hnd|done].
  - destruct (paginatedItems s) as [|x l] eqn:E; [by left|right].
    case_match; [done|].
    assert (isAnyVisibleSelected (setSelectedKeys s (list_to_set keys)) = true) as ->.
    { apply isAnyVisibleSelected_true. exists x.
      rewrite paginatedItems_setSelectedKeys, E. split; [left|]. apply Hall.
      rewrite paginatedItems_setSelectedKeys, E. left. }
    done.
  - assert (areAllVisibleSelected (setSelectedKeys s ∅) = false) as ->.
    { destruct (areAllVisibleSelected (setSelectedKeys s ∅)) eqn:E; [|done].
      apply areAllVisibleSelected_true in E as (Hne & _ & Hsel).
      destruct (paginatedItems (setSelectedKeys s ∅)) as [|x l] eqn:E'; [done|].
      exfalso. apply (not_elem_of_empty (C:=gset (option string)) (itemKey x)).
      apply (Hsel x). rewrite E'. left. }
    assert (isAnyVisibleSelected (setSelectedKeys s ∅) = false) as ->; [|done].
    destruct (isAnyVisibleSelected (setSelectedKeys s ∅)) eqn:E; [|done].
    apply isAnyVisibleSelected_true in E as (x & _ & Hx). simpl in Hx.
    by apply not_elem_of_empty in Hx.
Qed.

(** X11.  Ticking a row adds its key to the selection and unticking removes
    it, leaving every other key as it was; ticking a key that was not selected
    makes the selection one larger, and unticking it again restores the
    selection. *)
Theorem handleSelect_membership k c s :
  (∀ k', k' ∈ selectedKeys (handleSelect k c s)
         ↔ (k' = k ∧ checkedTruthy c = true) ∨ (k' ≠ k ∧ k' ∈ selectedKeys s))
  ∧ size (selectedKeys (handleSelect k (Checked true) s))
    = (if decide (k ∈ selectedKeys s) then size (selectedKeys s)
       else S (size (selectedKeys s)))
  ∧ (k ∈ selectedKeys s
     ∨ selectedKeys (handleSelect k (Checked false) (handleSelect k (Checked true) s))
       = selectedKeys s).
Proof.
  split; [|split].
  - intros k'. unfold handleSelect. simpl.
    destruct (checkedTruthy c);
      rewrite ?elem_of_union, ?elem_of_difference, elem_of_singleton;
      destruct (decide (k' = k)) as [->|]; intuition congruence.
  - unfold handleSelect. simpl. case_decide as Hk.
    + f_equal. apply set_eq. intros y.
      rewrite elem_of_union, elem_of_singleton. intuition congruence.
    + rewrite size_union, size_singleton; [lia|].
      intros y Hy1 Hy2%elem_of_singleton. by subst.
  - destruct (decide (k ∈ selectedKeys s)) as [|Hk]; [by left|right].
    unfold handleSelect. simpl. apply set_eq. intros y.
    rewrite elem_of_difference, elem_of_union, elem_of_singleton.
    intuition congruence.
Qed.

(** ** The export request *)

(** X12.  In every reachable state the export request covers the
    selection: a key is selected exactly when the request has an entry for it,
    every entry carries the key and the kind of a listed item, and the request
    is no longer than the listing. *)
Theorem itemsToDownload_covers_selection config s :
  reachable config anyAnswer s →
  (∀ k, k ∈ selectedKeys s ↔ ∃ e, e ∈ itemsToDownload s ∧ key e = k)
  ∧ (∀ e, e ∈ itemsToDownload s →
       ∃ item, item ∈ items s ∧ key e = itemKey item ∧ type e = itemType item)
  ∧ length (itemsToDownload s) ≤ length (items s).
Proof.
  intros Hreach. pose proof (reachable_selectionListed _ _ Hreach) as Hlisted.
  assert (Hentry : ∀ e, e ∈ itemsToDownload s ↔
            ∃ item, item ∈ items s ∧ itemKey item ∈ selectedKeys s
                    ∧ e = {| key := itemKey item; type := itemType item |}).
  { intros e. unfold itemsToDownload. rewrite list_elem_of_In, in_map_iff. split.
    - intros (item & <- & Hin). apply filter_In in Hin as [Hin Hsel].
      exists item. split; [by apply list_elem_of_In|].
      split; [by apply bool_decide_eq_true in Hsel|done].
    - intros (item & Hin & Hsel & ->). exists item. split; [done|].
      apply filter_In. split; [by apply list_elem_of_In|].
      by apply bool_decide_eq_true_2. }
  split; [|split].
  - intros k. split.
    + intros Hk. destruct (Hlisted k Hk) as (item & Hin & <-).
      exists {| key := itemKey item; type := itemType item |}.
      split; [|done]. apply Hentry. by exists item.
    + intros (e & (item & _ & Hsel & ->)%Hentry & <-). exact Hsel.
  - intros e (item & Hin & _ & ->)%Hentry. by exists item.
  - unfold itemsToDownload. rewrite length_map. apply filter_length_le.
Qed.

Lemma itemsToDownload_covers_selection_witness :
  reachable docsConfig anyAnswer (after twoTickedTrace)
  ∧ itemsToDownload (after twoTickedTrace)
    = [ {| key := Some "docs/a.txt"; type := TFile |};
        {| key := Some "docs/b.txt"; type := TFile |} ]
  ∧ length (itemsToDownload (after twoTickedTrace))
    ≤ length (items (after twoTickedTrace)).
Proof.
  assert (H : reachable docsConfig anyAnswer (after twoTickedTrace)).
  { apply after_reachable. vm_compute. reflexivity. }
  split; [exact H|]. split; [vm_compute; reflexivity|].
  exact (proj2 (proj2 (itemsToDownload_covers_selection docsConfig _ H))).
Defined.

(** ** Requests in flight *)

Lemma step_out config s ev s' out :
  step config s ev = Some (s', out) →
  out = (handle config ev s).2 ++ (runEffects s (handle config ev s).1).2.
Proof.
  unfold step. destruct (enabled config s ev); [|discriminate].
  destruct (handle config ev s) as [s1 out1]. simpl.
  destruct (runEffects s s1) as [s2 out2]. by intros [= <- <-].
Qed.

Lemma runEffects_out old new :
  (runEffects old new).2
  = if (bool_decide (prefix old ≠ prefix new)
        || negb (Bool.eqb (s3Client old) (s3Client new)))
       && s3Client new
    then [SendListObjectsV2 (prefix new)]
    else [].
Proof.
  unfold runEffects, fetchEffect, fetchItems_start.
  repeat case_match; simplify_eq/=; done.
Qed.

Lemma runEffects_isLoading old new :
  isLoading (runEffects old new).1
  = if (bool_decide (prefix old ≠ prefix new)
        || negb (Bool.eqb (s3Client old) (s3Client new)))
       && s3Client new
    then true
    else isLoading new.
Proof.
  unfold runEffects, fetchEffect, pageResetEffect, fetchItems_start.
  repeat case_match; simplify_eq/=; done.
Qed.

Lemma runEffects_isDownloading old new :
  isDownloading (runEffects old new).1 = isDownloading new.
Proof.
  unfold runEffects, fetchEffect, pageResetEffect, fetchItems_start.
  repeat case_match; simplify_eq/=; done.
Qed.

(** The archive call in flight, if any, and the state of the button. *)
Definition oneDownload (s : State) : Prop :=
  isDownloading s = true ∧ length (pendingDownloads s) = 1
  ∨ isDownloading s = false ∧ pendingDownloads s = [].

Lemma oneDownload_handle config s ev :
  oneDownload s → enabled config s ev = true → oneDownload (handle config ev s).1.
Proof.
  intros Hs En. destruct ev; simpl in *; try done.
  - destruct (pendingListings s !! i); [|done]. by destruct result.
  - destruct onNameCell; unfold nameCellClick, handleItemClick;
      repeat case_match; simplify_eq/=; done.
  - unfold handleSelectAll. by case_match.
  - apply andb_true_iff in En as [Hsz Hd]. apply negb_true_iff in Hd.
    unfold handleDownloadSelected_start. case_match; [done|].
    destruct Hs as [[? _]|[_ Hp]]; [congruence|].
    left. simpl. rewrite Hp. done.
  - apply Nat.ltb_lt in En.
    destruct Hs as [[_ Hlen]|[_ Hp]]; [|rewrite Hp in En; simpl in En; lia].
    destruct (pendingDownloads s) as [|r [|r' rest]] eqn:E; simpl in Hlen; try lia.
    destruct j as [|j]; [|simpl in En; lia]. simpl.
    right. by destruct result.
  - unfold handleUploadComplete, fetchItems_start.
    by destruct (negb (s3Client s)).
  - by destruct open.
  - unfold previousClick. by case_match.
  - unfold nextClick. by case_match.
Qed.

Lemma reachable_oneDownload config s : reachable config anyAnswer s → oneDownload s.
Proof.
  induction 1 as [|s ev s' out _ IH _ Hstep].
  - by right.
  - apply step_Some in Hstep as [En ->].
    pose proof (oneDownload_handle config s ev IH En) as Hh.
    destruct (runEffects_frame s (handle config ev s).1) as (_ & _ & _ & _ & _ & _ & Ep).
    unfold oneDownload. by rewrite runEffects_isDownloading, Ep.
Qed.

(** X13.  In every reachable state at most one archive call is in flight:
    either the component is downloading, exactly one call is pending and the
    download button does nothing, or it is not downloading and no call is
    pending. *)
Theorem one_download_in_flight config s :
  reachable config anyAnswer s →
  isDownloading s = true ∧ length (pendingDownloads s) = 1
  ∧ enabled config s DownloadClicked = false
  ∨ isDownloading s = false ∧ pendingDownloads s = [].
Proof.
  intros Hreach. destruct (reachable_oneDownload _ _ Hreach) as [[Hd Hp]|[Hd Hp]].
  - left. split; [done|]. split; [done|]. simpl. rewrite Hd. apply andb_false_r.
  - by right.
Qed.

(** Two files are ticked and the download button is clicked. *)
Definition downloadingTrace : list Event := twoTickedTrace ++ [DownloadClicked].

Lemma one_download_in_flight_witness :
  reachable docsConfig anyAnswer (after downloadingTrace)
  ∧ isDownloading (after downloadingTrace) = true
  ∧ step docsConfig (after downloadingTrace) DownloadClicked = None.
Proof.
  assert (H : reachable docsConfig anyAnswer (after downloadingTrace)).
  { apply after_reachable. vm_compute. reflexivity. }
  assert (Hd : isDownloading (after downloadingTrace) = true) by (vm_compute; reflexivity).
  split; [exact H|]. split; [exact Hd|].
  destruct (one_download_in_flight docsConfig _ H) as [(_ & _ & En)|[Hf _]].
  - unfold step. rewrite En. reflexivity.
  - rewrite Hd in Hf. exact (False_ind _ (Bool.diff_true_false Hf)).
Defined.

(** While the spinner shows and the client exists, a listing is in flight. *)
Definition spinnerHasListing (s : State) : Prop :=
  isLoading s = false ∨ s3Client s = false ∨ pendingListings s ≠ [].

Lemma spinnerHasListing_runEffects old new :
  spinnerHasListing new → spinnerHasListing (runEffects old new).1.
Proof.
  intros Hnew. unfold spinnerHasListing.
  destruct (runEffects_frame old new) as (_ & _ & _ & _ & _ & -> & _).
  rewrite runEffects_isLoading, runEffects_pendingListings.
  case_match; [|done]. right. right. by destruct (pendingListings new).
Qed.

Lemma spinnerHasListing_step config s ev s' out :
  spinnerHasListing s → step config s ev = Some (s', out) → spinnerHasListing s'.
Proof.
  intros Hs Hstep. apply step_Some in Hstep as [En ->].
  destruct ev; simpl in En |- *;
    try (by apply spinnerHasListing_runEffects).
  - (* the client is created: the fetch effect starts a listing *)
    apply negb_true_iff in En. unfold spinnerHasListing.
    rewrite runEffects_pendingListings. simpl. rewrite En. simpl.
    rewrite orb_true_r. simpl. right. right.
    by destruct (pendingListings s).
  - apply spinnerHasListing_runEffects.
    destruct (pendingListings s !! i); [|done]. destruct result; by left.
  - apply spinnerHasListing_runEffects.
    destruct onNameCell; unfold nameCellClick, handleItemClick;
      repeat case_match; simplify_eq/=; done.
  - apply spinnerHasListing_runEffects. unfold handleSelectAll. by case_match.
  - apply spinnerHasListing_runEffects.
    unfold handleDownloadSelected_start. by case_match.
  - apply spinnerHasListing_runEffects.
    destruct (pendingDownloads s !! j); [|done]. by destruct result.
  - apply spinnerHasListing_runEffects.
    unfold handleUploadComplete, fetchItems_start.
    destruct (s3Client s) eqn:Hc; simpl; [|done].
    right. right. simpl. by destruct (pendingListings s).
  - apply spinnerHasListing_runEffects. by destruct open.
  - apply spinnerHasListing_runEffects. unfold previousClick. by case_match.
  - apply spinnerHasListing_runEffects. unfold nextClick. by case_match.
Qed.

(** X14.  In every reachable state, when the spinner is shown and the
    client exists, a listing call is in flight: the spinner never waits for
    nothing. *)
Theorem spinner_has_listing_in_flight config s :
  reachable config anyAnswer s →
  isLoading s = false ∨ s3Client s = false ∨ pendingListings s ≠ [].
Proof.
  induction 1 as [|s ev s' out _ IH _ Hstep].
  - right. by left.
  - by eapply spinnerHasListing_step.
Qed.

Lemma spinner_has_listing_in_flight_witness :
  reachable docsConfig anyAnswer (after refreshingTrace)
  ∧ isLoading (after refreshingTrace) = true
  ∧ s3Client (after refreshingTrace) = true
  ∧ pendingListings (after refreshingTrace) ≠ [].
Proof.
  assert (H : reachable docsConfig anyAnswer (after refreshingTrace)).
  { apply after_reachable. vm_compute. reflexivity. }
  assert (Hl : isLoading (after refreshingTrace) = true) by (vm_compute; reflexivity).
  assert (Hc : s3Client (after refreshingTrace) = true) by (vm_compute; reflexivity).
  split; [exact H|]. split; [exact Hl|]. split; [exact Hc|].
  destruct (spinner_has_listing_in_flight docsConfig _ H) as [Hf|[Hf|Hp]].
  - rewrite Hl in Hf. exact (False_ind _ (Bool.diff_true_false Hf)).
  - rewrite Hc in Hf. exact (False_ind _ (Bool.diff_true_false Hf)).
  - exact Hp.
Defined.

(** ** A listing that fails *)

(** X15.  When a listing call fails, the component shows the connection
    error and asks to be disconnected, once each; it hides the spinner and
    drops the call, and it keeps the items, the selection, the prefix, the
    search query and the page as they were. *)
Theorem failed_listing_keeps_state config s i s' out :
  step config s (ListingSettled i None) = Some (s', out) →
  out = [ToastConnectionError; OnDisconnect]
  ∧ isLoading s' = false
  ∧ S (length (pendingListings s')) = length (pendingListings s)
  ∧ items s' = items s ∧ selectedKeys s' = selectedKeys s
  ∧ prefix s' = prefix s ∧ searchQuery s' = searchQuery s
  ∧ currentPage s' = currentPage s.
Proof.
  intros Hstep. pose proof (step_out _ _ _ _ _ Hstep) as Hout.
  apply step_Some in Hstep as [En ->].
  simpl in En. apply Nat.ltb_lt in En.
  destruct (lookup_lt_is_Some_2 _ _ En) as [queried Hq].
  set (s1 := (handle config (ListingSettled i None) s).1) in *.
  assert (Hs1 : s1 = setIsLoading (setPendingListings s (delete i (pendingListings s))) false).
  { subst s1. simpl. by rewrite Hq. }
  assert (Ho1 : (handle config (ListingSettled i None) s).2
                = [ToastConnectionError; OnDisconnect]).
  { simpl. by rewrite Hq. }
  destruct (runEffects_frame s s1) as (E1 & E2 & E3 & E4 & _).
  rewrite Hout, Ho1, runEffects_out, runEffects_isLoading, runEffects_pendingListings,
    runEffects_currentPage, E1, E2, E3, E4, Hs1.
  simpl. rewrite pageResetDeps_false by done.
  rewrite bool_decide_eq_false_2 by (by intros ?). rewrite Bool.eqb_reflx. simpl.
  rewrite length_delete by (by eexists). repeat split; try done. lia.
Qed.

(** The first listing fails. *)
Definition failedTrace : list Event := [Mounted; ListingSettled 0 None].

Lemma failed_listing_keeps_state_witness :
  step docsConfig (after [Mounted]) (ListingSettled 0 None)
  = Some (after failedTrace, [ToastConnectionError; OnDisconnect])
  ∧ isLoading (after failedTrace) = false
  ∧ items (after failedTrace) = items (after [Mounted]).
Proof.
  assert (H : step docsConfig (after [Mounted]) (ListingSettled 0 None)
              = Some (after failedTrace, [ToastConnectionError; OnDisconnect])).
  { vm_compute. reflexivity. }
  split; [exact H|].
  destruct (failed_listing_keeps_state _ _ _ _ _ H) as (_ & Hl & _ & Hi & _).
  split; [exact Hl|exact Hi].
Defined.

(** ** Clicks on rows *)

(** X16.  A plain click on the row of a folder with a non-empty prefix that
    is not selected enters the folder: the prefix becomes the folder's prefix
    and the search query is emptied, while items and selection stay until the
    listing arrives.  When the prefix changes, the page index goes to 1, the
    spinner is shown and exactly one listing of the new prefix is requested;
    when it does not, nothing is requested. *)
Theorem folder_click_enters_folder config s p k onNameCell e s' out :
  reachable config anyAnswer s →
  Prefix p = Some k → k ≠ "" → Some k ∉ selectedKeys s →
  inCheckbox e = false → inSelectedRow e = false →
  step config s (RowClicked (folder p) onNameCell e) = Some (s', out) →
  prefix s' = k ∧ searchQuery s' = ""
  ∧ items s' = items s ∧ selectedKeys s' = selectedKeys s
  ∧ (k = prefix s ∧ out = [] ∧ pendingListings s' = pendingListings s
     ∨ k ≠ prefix s ∧ out = [SendListObjectsV2 k] ∧ currentPage s' = 1%Z
       ∧ isLoading s' = true ∧ pendingListings s' = pendingListings s ++ [k]).
Proof.
  intros Hreach Hk Hne Hsel Hcb Hrow Hstep.
  pose proof (step_out _ _ _ _ _ Hstep) as Hout.
  pose proof Hstep as [En _]%step_Some.
  pose proof (navigation_needs_client config s (RowClicked (folder p) onNameCell e)
                (reachable_waitsForClient _ _ Hreach) I En) as Hc.
  apply step_Some in Hstep as [_ ->].
  assert (Hh : handle config (RowClicked (folder p) onNameCell e) s
               = (setSearchQuery (setPrefix s k) "", [])).
  { apply truthy_true in Hne.
    assert (isSelected s (Some k) = false) as Hb by by apply bool_decide_eq_false_2.
    simpl. destruct onNameCell; unfold nameCellClick, handleItemClick; simpl;
      by rewrite Hk, ?Hb, Hcb, Hrow, Hne. }
  rewrite Hh in *. simpl fst in *. simpl snd in *.
  destruct (runEffects_frame s (setSearchQuery (setPrefix s k) ""))
    as (E1 & E2 & E3 & E4 & _).
  rewrite E1, E2, E3, E4, Hout, runEffects_out, runEffects_pendingListings,
    runEffects_isLoading, runEffects_currentPage.
  simpl. rewrite Hc, Bool.eqb_reflx. simpl. rewrite orb_false_r, andb_true_r.
  split; [done|]. split; [done|]. split; [done|]. split; [done|].
  destruct (decide (k = prefix s)) as [Heq|Hneq].
  - left. rewrite bool_decide_eq_false_2 by (intros ?; congruence). done.
  - right. rewrite bool_decide_eq_true_2 by congruence.
    rewrite pageResetDeps_true by (right; left; simpl; congruence). done.
Qed.

Lemma folder_click_enters_folder_witness :
  reachable docsConfig anyAnswer (after listedTrace)
  ∧ step docsConfig (after listedTrace) (RowClicked (folder imgFolder) false plainClick)
    = Some (after enteredTrace, [SendListObjectsV2 "docs/img/"])
  ∧ prefix (after enteredTrace) = "docs/img/"
  ∧ searchQuery (after enteredTrace) = "".
Proof.
  assert (H : reachable docsConfig anyAnswer (after listedTrace)).
  { apply after_reachable. vm_compute. reflexivity. }
  assert (Hstep : step docsConfig (after listedTrace)
                    (RowClicked (folder imgFolder) false plainClick)
                  = Some (after enteredTrace, [SendListObjectsV2 "docs/img/"])).
  { vm_compute. reflexivity. }
  assert (Hsel : Some "docs/img/" ∉ selectedKeys (after listedTrace)).
  { apply (bool_decide_eq_false_1 _). vm_compute. reflexivity. }
  split; [exact H|]. split; [exact Hstep|].
  destruct (folder_click_enters_folder docsConfig _ imgFolder "docs/img/" false plainClick
              _ _ H eq_refl ltac:(discriminate) Hsel eq_refl eq_refl Hstep)
    as (Hp & Hq & _).
  split; [exact Hp|exact Hq].
Defined.

(** Whether an item can be entered: a folder with a non-empty prefix. *)
Definition enterable (item : S3Item) : bool :=
  match item with
  | folder p => match Prefix p with Some k => Js.truthy k | None => false end
  | file _ => false
  end.

(** X17.  A click on the row of a file, or of a folder without a prefix,
    never navigates and requests nothing: prefix, search query, items,
    selection and page stay as they are.  It opens the details of the item,
    unless the click was on a checkbox or inside a selected row and did not hit
    the name cell of a selected item, in which case nothing changes. *)
Theorem file_click_opens_details config s item onNameCell e s' out :
  enterable item = false →
  step config s (RowClicked item onNameCell e) = Some (s', out) →
  out = []
  ∧ prefix s' = prefix s ∧ searchQuery s' = searchQuery s ∧ items s' = items s
  ∧ selectedKeys s' = selectedKeys s ∧ currentPage s' = currentPage s
  ∧ pendingListings s' = pendingListings s
  ∧ selectedItem s'
    = (if (inCheckbox e || inSelectedRow e)
          && negb (onNameCell && isSelected s (itemKey item))
       then selectedItem s else Some item).
Proof.
  intros Hitem Hstep. pose proof (step_out _ _ _ _ _ Hstep) as Hout.
  apply step_Some in Hstep as [_ ->].
  assert (Hh : handle config (RowClicked item onNameCell e) s
               = (if (inCheckbox e || inSelectedRow e)
                     && negb (onNameCell && isSelected s (itemKey item))
                  then s else setSelectedItem s (Some item), [])).
  { simpl. f_equal. unfold nameCellClick, handleItemClick.
    destruct onNameCell, (isSelected s (itemKey item)),
      (inCheckbox e || inSelectedRow e); simpl; try done;
      destruct item as [p|c]; try done; simpl in Hitem;
      destruct (Prefix p) as [k|]; try done; by rewrite Hitem. }
  rewrite Hh in *. simpl fst in *. simpl snd in *.
  set (s1 := if (inCheckbox e || inSelectedRow e)
                && negb (onNameCell && isSelected s (itemKey item))
             then s else setSelectedItem s (Some item)) in *.
  assert (prefix s1 = prefix s ∧ searchQuery s1 = searchQuery s ∧ items s1 = items s
          ∧ selectedKeys s1 = selectedKeys s ∧ currentPage s1 = currentPage s
          ∧ pendingListings s1 = pendingListings s ∧ s3Client s1 = s3Client s
          ∧ itemsPerPage s1 = itemsPerPage s)
    as (F1 & F2 & F3 & F4 & F5 & F6 & F7 & F8) by (subst s1; by case_match).
  destruct (runEffects_frame s s1) as (E1 & E2 & E3 & E4 & _).
  rewrite E1, E2, E3, E4, Hout, runEffects_out, runEffects_pendingListings,
    runEffects_currentPage, pageResetDeps_false, F1, F2, F3, F4, F5, F6, F7 by done.
  rewrite bool_decide_eq_false_2 by (by intros ?). rewrite Bool.eqb_reflx. simpl.
  repeat split; try done.
  unfold runEffects, fetchEffect, pageResetEffect.
  rewrite F1, F7, bool_decide_eq_false_2 by (by intros ?).
  rewrite Bool.eqb_reflx. simpl. subst s1. by repeat case_match.
Qed.

(** The first file is clicked. *)
Definition fileClickedTrace : list Event :=
  listedTrace ++ [RowClicked (file (mkFile "docs/a.txt" 100)) false plainClick].

Lemma file_click_opens_details_witness :
  enterable (file (mkFile "docs/a.txt" 100)) = false
  ∧ step docsConfig (after listedTrace)
      (RowClicked (file (mkFile "docs/a.txt" 100)) false plainClick)
    = Some (after fileClickedTrace, [])
  ∧ prefix (after fileClickedTrace) = prefix (after listedTrace)
  ∧ selectedItem (after fileClickedTrace) = Some (file (mkFile "docs/a.txt" 100)).
Proof.
  assert (Hstep : step docsConfig (after listedTrace)
                    (RowClicked (file (mkFile "docs/a.txt" 100)) false plainClick)
                  = Some (after fileClickedTrace, [])).
  { vm_compute. reflexivity. }
  split; [reflexivity|]. split; [exact Hstep|].
  destruct (file_click_opens_details docsConfig _ (file (mkFile "docs/a.txt" 100))
              false plainClick _ _ eq_refl Hstep)
    as (_ & Hp & _ & _ & _ & _ & _ & Hd).
  split; [exact Hp|exact Hd].
Defined.

(** ** After an upload *)

(** X18.  When an upload completes, the dialog is closed and, the client
    being there, exactly one listing of the current prefix is requested and the
    spinner is shown; prefix, search query, page, items and selection stay as
    they are until that listing arrives. *)
Theorem upload_complete_relists config s s' out :
  s3Client s = true →
  step config s UploadCompleted = Some (s', out) →
  out = [SendListObjectsV2 (prefix s)]
  ∧ uploadDialogOpen s' = false ∧ isLoading s' = true
  ∧ pendingListings s' = pendingListings s ++ [prefix s]
  ∧ prefix s' = prefix s ∧ searchQuery s' = searchQuery s
  ∧ currentPage s' = currentPage s
  ∧ items s' = items s ∧ selectedKeys s' = selectedKeys s.
Proof.
  intros Hc Hstep. pose proof (step_out _ _ _ _ _ Hstep) as Hout.
  apply step_Some in Hstep as [_ ->].
  assert (Hh : handle config UploadCompleted s
    = (setUploadDialogOpen
         (setPendingListings (setIsLoading s true) (pendingListings s ++ [prefix s]))
         false,
       [SendListObjectsV2 (prefix s)])).
  { simpl. unfold handleUploadComplete, fetchItems_start. by rewrite Hc. }
  rewrite Hh in *. simpl fst in *. simpl snd in *.
  set (s1 := setUploadDialogOpen _ false) in *.
  destruct (runEffects_frame s s1) as (E1 & E2 & E3 & E4 & _).
  rewrite E1, E2, E3, E4, Hout, runEffects_out, runEffects_pendingListings,
    runEffects_isLoading, runEffects_currentPage, pageResetDeps_false by done.
  subst s1. simpl.
  rewrite bool_decide_eq_false_2 by (by intros ?). rewrite Bool.eqb_reflx. simpl.
  repeat split; try done.
  unfold runEffects, fetchEffect, pageResetEffect. simpl.
  rewrite bool_decide_eq_false_2 by (by intros ?). rewrite Bool.eqb_reflx. simpl.
  by case_match.
Qed.

Lemma upload_complete_relists_witness :
  s3Client (after pagedTrace) = true
  ∧ step docsConfig (after pagedTrace) UploadCompleted
    = Some (after refreshingTrace, [SendListObjectsV2 "docs/"])
  ∧ currentPage (after refreshingTrace) = currentPage (after pagedTrace)
  ∧ isLoading (after refreshingTrace) = true.
Proof.
  assert (Hc : s3Client (after pagedTrace) = true) by (vm_compute; reflexivity).
  assert (Hstep : step docsConfig (after pagedTrace) UploadCompleted
                  = Some (after refreshingTrace, [SendListObjectsV2 "docs/"])).
  { vm_compute. reflexivity. }
  split; [exact Hc|]. split; [exact Hstep|].
  destruct (upload_complete_relists docsConfig _ _ _ Hc Hstep)
    as (_ & _ & Hl & _ & _ & _ & Hp & _).
  split; [exact Hp|exact Hl].
Defined.

(** * The user registry: [src/context/UserContext.tsx] *)

Module UserContext.

Record User := { username : string; password : option string }.

Global Instance User_eq_dec : EqDecision User.
Proof. solve_decision. Defined.

Definition defaultUsers : list User :=
  [ {| username := "admin"; password := Some "s3brows3r" |} ].

(** What the loading effect finds under the key [s3-users]: no window, no
    usable storage, no (or an empty) value, a value on which reading or
    [JSON.parse] throws, or an array of users. *)
Inductive Stored :=
| NoWindow
| NoStorage
| Missing
| Broken
| Parsed (parsedUsers : list User).

Definition isAdmin (u : User) : bool := String.eqb (username u) "admin".

(** The users set by the loading effect. *)
Definition loadUsers (stored : Stored) : list User :=
  match stored with
  | Parsed parsedUsers =>
      let adminExists := existsb isAdmin parsedUsers in
      if negb adminExists
      then defaultUsers ++ List.filter (λ u, negb (isAdmin u)) parsedUsers
      else parsedUsers
  | _ => defaultUsers
  end.

(** The toasts of the registry. *)
Inductive Toast :=
| ToastUserExists                       (* destructive: "User already exists." *)
| ToastUserAdded (username : string)
| ToastPasswordUpdated (username : string)
| ToastCannotDeleteAdmin                (* destructive: "Cannot delete admin user." *)
| ToastUserDeleted (username : string).

Definition addUser (username pass : string) (users : list User)
  : list User * bool * Toast :=
  if existsb (λ u, String.eqb (UserContext.username u) username) users
  then (users, false, ToastUserExists)
  else (users ++ [ {| username := username; password := Some pass |} ],
        true, ToastUserAdded username).

Definition updateUser (username pass : string) (users : list User)
  : list User * Toast :=
  (map (λ u, if String.eqb (UserContext.username u) username
             then {| username := UserContext.username u; password := Some pass |}
             else u) users,
   ToastPasswordUpdated username).

Definition deleteUser (username : string) (users : list User) : list User * Toast :=
  if String.eqb username "admin" then (users, ToastCannotDeleteAdmin)
  else (List.filter (λ u, negb (String.eqb (UserContext.username u) username)) users,
        ToastUserDeleted username).

(** [validateUser]; the password given may be undefined, as when it is read
    back from a stored session. *)
Definition validateUser (users : list User) (username : string) (pass : option string)
  : bool :=
  match List.find (λ u, String.eqb (UserContext.username u) username) users with
  | Some user => bool_decide (password user = pass)
  | None => false
  end.

(** The calls a page can make on the registry. *)
Inductive Call :=
| AddUser (username pass : string)
| UpdateUser (username pass : string)
| DeleteUser (username : string).

Definition call (users : list User) (c : Call) : list User :=
  match c with
  | AddUser username pass => (addUser username pass users).1.1
  | UpdateUser username pass => (updateUser username pass users).1
  | DeleteUser username => (deleteUser username users).1
  end.

Definition hasUser (username : string) (users : list User) : Prop :=
  ∃ u, u ∈ users ∧ UserContext.username u = username.

Lemma existsb_username username users :
  existsb (λ u, String.eqb (UserContext.username u) username) users = true
  ↔ hasUser username users.
Proof.
  rewrite existsb_exists. unfold hasUser.
  setoid_rewrite String.eqb_eq. by setoid_rewrite list_elem_of_In.
Qed.

Lemma find_username_None username users :
  List.find (λ u, String.eqb (UserContext.username u) username) users = None
  ↔ ¬ hasUser username users.
Proof.
  split.
  - intros Hf (u & Hin & Hu). apply list_elem_of_In in Hin.
    pose proof (find_none _ _ Hf u Hin) as Hn. simpl in Hn.
    apply String.eqb_neq in Hn. done.
  - intros Hn. destruct (List.find _ users) as [u|] eqn:E; [|done].
    apply find_some in E as [Hin Hu]. apply String.eqb_eq in Hu.
    exfalso. apply Hn. exists u. by rewrite list_elem_of_In.
Qed.

Lemma hasUser_loadUsers stored : hasUser "admin" (loadUsers stored).
Proof.
  assert (hasUser "admin" defaultUsers) as Hd.
  { eexists. split; [left|done]. }
  destruct stored as [| | | |parsedUsers]; try exact Hd. unfold loadUsers.
  destruct (existsb isAdmin parsedUsers) eqn:E; cbn [negb].
  - by apply (existsb_username "admin").
  - destruct Hd as (u & Hin & Hu). exists u. split; [|done].
    apply elem_of_app. by left.
Qed.

Lemma hasUser_call username users c :
  hasUser username users → c ≠ DeleteUser username ∨ username = "admin" →
  hasUser username (call users c).
Proof.
  intros (u & Hin & Hu) Hc. destruct c as [n p|n p|n]; simpl.
  - unfold addUser. case_match; simpl; [by exists u|].
    exists u. split; [|done]. apply elem_of_app. by left.
  - destruct (String.eqb (UserContext.username u) n) eqn:E.
    + exists {| username := UserContext.username u; password := Some p |}.
      split; [|done]. apply list_elem_of_In, in_map_iff. exists u.
      rewrite E. split; [done|]. by apply list_elem_of_In.
    + exists u. split; [|done]. apply list_elem_of_In, in_map_iff. exists u.
      rewrite E. split; [done|]. by apply list_elem_of_In.
  - unfold deleteUser. destruct (String.eqb n "admin") eqn:E; simpl; [by exists u|].
    exists u. split; [|done]. apply list_elem_of_In, filter_In.
    split; [by apply list_elem_of_In|]. apply negb_true_iff, String.eqb_neq.
    rewrite Hu. intros ->. apply String.eqb_neq in E.
    destruct Hc as [Hc| ->]; congruence.
Qed.

(** X19.  Whatever the storage held and whichever calls follow, the registry
    always has a user named admin: loading restores it when it is missing, and
    deleting it is refused, with an error and without any change. *)
Theorem admin_always_exists stored calls users :
  hasUser "admin" (foldl call (loadUsers stored) calls)
  ∧ deleteUser "admin" users = (users, ToastCannotDeleteAdmin).
Proof.
  split; [|done].
  generalize (hasUser_loadUsers stored). generalize (loadUsers stored).
  induction calls as [|c calls IH]; intros us Hus; simpl; [done|].
  apply IH. apply hasUser_call; [done|by right].
Qed.



Lemma find_updateUser username pass users other :
  List.find (λ u, String.eqb (UserContext.username u) other)
    (updateUser username pass users).1
  = (λ u, if String.eqb (UserContext.username u) username
          then {| username := UserContext.username u; password := Some pass |}
          else u)
    <$> List.find (λ u, String.eqb (UserContext.username u) other) users.
Proof.
  unfold updateUser. simpl. induction users as [|u users IH]; simpl; [done|].
  destruct (String.eqb (UserContext.username u) username) eqn:E; simpl;
    destruct (String.eqb (UserContext.username u) other) eqn:E'; simpl;
    by rewrite ?E.
Qed.

(** X21.  After the password of an existing user is updated, that user
    validates with the new password and with no other; every other name
    validates as before, and the names in the registry are unchanged. *)
Theorem updateUser_then_validate username pass users other given :
  hasUser username users → other ≠ username →
  validateUser (updateUser username pass users).1 username given
  = bool_decide (Some pass = given)
  ∧ validateUser (updateUser username pass users).1 other given
    = validateUser users other given
  ∧ UserContext.username <$> (updateUser username pass users).1
    = UserContext.username <$> users.
Proof.
  intros Hhas Hne. unfold validateUser. rewrite !find_updateUser. split; [|split].
  - destruct (List.find _ users) as [u|] eqn:E.
    + apply find_some in E as [_ Hu]. simpl. by rewrite Hu.
    + by apply find_username_None in E.
  - destruct (List.find _ users) as [u|] eqn:E; [|done].
    apply find_some in E as [_ Hu]. apply String.eqb_eq in Hu. simpl.
    apply String.eqb_neq in Hne. by rewrite Hu, Hne.
  - unfold updateUser. simpl. rewrite <- list_fmap_compose.
    apply list_fmap_ext. intros i u _. simpl. by case_match.
Qed.

Lemma updateUser_then_validate_witness :
  hasUser "admin" defaultUsers
  ∧ validateUser (updateUser "admin" "n3w" defaultUsers).1 "admin" (Some "n3w") = true
  ∧ validateUser (updateUser "admin" "n3w" defaultUsers).1 "admin" (Some "s3brows3r")
    = false.
Proof.
  assert (H : hasUser "admin" defaultUsers) by (eexists; split; [left|done]).
  split; [exact H|].
  split.
  - exact (proj1 (updateUser_then_validate "admin" "n3w" defaultUsers "guest"
                    (Some "n3w") H ltac:(discriminate))).
  - exact (proj1 (updateUser_then_validate "admin" "n3w" defaultUsers "guest"
                    (Some "s3brows3r") H ltac:(discriminate))).
Defined.

Lemma find_deleteUser username users other :
  other ≠ username →
  List.find (λ u, String.eqb (UserContext.username u) other)
    (List.filter (λ u, negb (String.eqb (UserContext.username u) username)) users)
  = List.find (λ u, String.eqb (UserContext.username u) other) users.
Proof.
  intros Hne. induction users as [|u users IH]; simpl; [done|].
  destruct (String.eqb (UserContext.username u) username) eqn:E; simpl.
  - apply String.eqb_eq in E.
    assert (String.eqb (UserContext.username u) other = false) as ->; [|done].
    apply String.eqb_neq. congruence.
  - by rewrite IH.
Qed.

(** X22.  After a user other than admin is deleted, the name is gone from
    the registry and validates with no password; every other name validates as
    before. *)
Theorem deleteUser_then_validate username users other given :
  username ≠ "admin" → other ≠ username →
  ¬ hasUser username (deleteUser username users).1
  ∧ validateUser (deleteUser username users).1 username given = false
  ∧ validateUser (deleteUser username users).1 other given
    = validateUser users other given.
Proof.
  intros Hadmin Hne. unfold deleteUser.
  apply String.eqb_neq in Hadmin. rewrite Hadmin. simpl.
  assert (¬ hasUser username
            (List.filter (λ u, negb (String.eqb (UserContext.username u) username)) users))
    as Hgone.
  { intros (u & Hin & Hu). apply list_elem_of_In, filter_In in Hin as [_ Hf].
    apply negb_true_iff, String.eqb_neq in Hf. done. }
  split; [exact Hgone|]. split.
  - unfold validateUser. by rewrite (proj2 (find_username_None _ _) Hgone).
  - unfold validateUser. by rewrite find_deleteUser.
Qed.

Lemma deleteUser_then_validate_witness :
  validateUser (addUser "guest" "pw" defaultUsers).1.1 "guest" (Some "pw") = true
  ∧ validateUser (deleteUser "guest" (addUser "guest" "pw" defaultUsers).1.1).1
      "guest" (Some "pw") = false
  ∧ validateUser (deleteUser "guest" (addUser "guest" "pw" defaultUsers).1.1).1
      "admin" (Some "s3brows3r") = true.
Proof.
  split; [reflexivity|].
  destruct (deleteUser_then_validate "guest" (addUser "guest" "pw" defaultUsers).1.1
              "admin" (Some "pw") ltac:(discriminate) ltac:(discriminate))
    as (_ & Hg & _).
  split; [exact Hg|].
  etrans;
    [exact (proj2 (proj2 (deleteUser_then_validate "guest"
                            (addUser "guest" "pw" defaultUsers).1.1
                            "admin" (Some "s3brows3r")
                            ltac:(discriminate) ltac:(discriminate))))|].
  reflexivity.
Defined.

End UserContext.

(** * The bucket registry: [src/context/BucketContext.tsx] *)

Module BucketContext.

Inductive Status := untested | connected | failed.

Record Bucket := {
  id : string;
  name : string;
  bucket : string;
  region : string;
  accessKeyId : option string;
  secretAccessKey : option string;
  status : Status;
  owner : option string;
  folder : option string
}.

(** [{ ...b, id, owner }]. *)
Definition withIdOwner (b : Bucket) (i : string) (o : option string) : Bucket :=
  {| id := i; name := name b; bucket := bucket b; region := region b;
     accessKeyId := accessKeyId b; secretAccessKey := secretAccessKey b;
     status := status b; owner := o; folder := folder b |}.

(** [{ ...b, status }]. *)
Definition withStatus (b : Bucket) (st : Status) : Bucket :=
  {| id := id b; name := name b; bucket := bucket b; region := region b;
     accessKeyId := accessKeyId b; secretAccessKey := secretAccessKey b;
     status := st; owner := owner b; folder := folder b |}.

(** The filter of [userBuckets]: an owned bucket is shown to its owner, a
    bucket without owner (or with an empty one) to admin. *)
Definition visibleTo (user : UserContext.User) (b : Bucket) : bool :=
  match owner b with
  | Some o =>
      if Js.truthy o then String.eqb o (UserContext.username user)
      else String.eqb (UserContext.username user) "admin"
  | None => String.eqb (UserContext.username user) "admin"
  end.

Definition userBuckets (user : option UserContext.User) (allBuckets : list Bucket)
  : list Bucket :=
  match user with
  | None => []
  | Some u => List.filter (visibleTo u) allBuckets
  end.

(** [addBucket]; [newId] is the value of [crypto.randomUUID()].  The argument
    has no [id] by its type; one it might carry is overwritten. *)
Definition addBucket (user : option UserContext.User) (newId : string)
    (b : Bucket) (allBuckets : list Bucket) : list Bucket :=
  match user with
  | None => allBuckets
  | Some u => allBuckets ++ [withIdOwner b newId (Some (UserContext.username u))]
  end.

Definition updateBucket (i : string) (updatedBucket : Bucket)
    (allBuckets : list Bucket) : list Bucket :=
  map (λ b, if String.eqb (id b) i then withIdOwner updatedBucket i (owner b) else b)
    allBuckets.

Definition setBucketStatus (i : string) (st : Status) (allBuckets : list Bucket)
  : list Bucket :=
  map (λ b, if String.eqb (id b) i then withStatus b st else b) allBuckets.

(** The two cells [deleteBucket] and the deselecting effect write. *)
Record State := {
  allBuckets : list Bucket;
  selectedBucket : option Bucket
}.

Definition deleteBucket (i : string) (s : State) : State :=
  {| allBuckets := List.filter (λ b, negb (String.eqb (id b) i)) (allBuckets s);
     selectedBucket :=
       match selectedBucket s with
       | Some sb => if String.eqb (id sb) i then None else Some sb
       | None => None
       end |}.

Definition getBucketById (user : option UserContext.User) (allBuckets : list Bucket)
    (i : string) : option Bucket :=
  List.find (λ b, String.eqb (id b) i) (userBuckets user allBuckets).

(** The effect that deselects a bucket the user no longer has. *)
Definition deselectEffect (user : option UserContext.User) (s : State) : State :=
  match selectedBucket s with
  | Some sb =>
      if negb (existsb (λ b, String.eqb (id b) (id sb)) (userBuckets user (allBuckets s)))
      then {| allBuckets := allBuckets s; selectedBucket := None |}
      else s
  | None => s
  end.

Lemma userBuckets_map user (g : Bucket → Bucket) allBuckets :
  (∀ b, owner (g b) = owner b) →
  userBuckets user (map g allBuckets) = map g (userBuckets user allBuckets).
Proof.
  intros Hg. destruct user as [u|]; [|done]. simpl.
  induction allBuckets as [|b l IH]; simpl; [done|].
  assert (visibleTo u (g b) = visibleTo u b) as -> by (unfold visibleTo; by rewrite Hg).
  destruct (visibleTo u b); simpl; by rewrite IH.
Qed.

Lemma find_id_map (g : Bucket → Bucket) l j :
  (∀ b, id (g b) = id b) →
  List.find (λ b, String.eqb (id b) j) (map g l)
  = g <$> List.find (λ b, String.eqb (id b) j) l.
Proof.
  intros Hg. induction l as [|b l IH]; simpl; [done|].
  rewrite Hg. by destruct (String.eqb (id b) j).
Qed.

Lemma getBucketById_map user (g : Bucket → Bucket) allBuckets j :
  (∀ b, owner (g b) = owner b) → (∀ b, id (g b) = id b) →
  getBucketById user (map g allBuckets) j = g <$> getBucketById user allBuckets j.
Proof.
  intros Ho Hi. unfold getBucketById. by rewrite userBuckets_map, find_id_map.
Qed.

Lemma getBucketById_id user allBuckets j b :
  getBucketById user allBuckets j = Some b → id b = j.
Proof. intros [_ H]%find_some. by apply String.eqb_eq in H. Qed.

(** X23.  A bucket added by a user with a non-empty name is owned by that
    user: it comes last in the user's own list and the list of every user with
    another name, admin included, is unchanged.  Without a user nothing is
    added. *)
Theorem addBucket_visibility u v newId b allBuckets :
  UserContext.username u ≠ "" →
  UserContext.username v ≠ UserContext.username u →
  userBuckets (Some u) (addBucket (Some u) newId b allBuckets)
  = userBuckets (Some u) allBuckets
    ++ [withIdOwner b newId (Some (UserContext.username u))]
  ∧ userBuckets (Some v) (addBucket (Some u) newId b allBuckets)
    = userBuckets (Some v) allBuckets
  ∧ addBucket None newId b allBuckets = allBuckets.
Proof.
  intros Hu Hv. simpl. rewrite !List.filter_app. simpl.
  assert (∀ w, visibleTo w (withIdOwner b newId (Some (UserContext.username u)))
               = String.eqb (UserContext.username u) (UserContext.username w)) as Hvis.
  { intros w. unfold visibleTo. simpl. apply truthy_true in Hu. by rewrite Hu. }
  rewrite !Hvis, String.eqb_refl.
  apply not_eq_sym, String.eqb_neq in Hv. rewrite Hv.
  by rewrite app_nil_r.
Qed.

(** Two users and a bucket form. *)
Definition alice : UserContext.User :=
  {| UserContext.username := "alice"; UserContext.password := Some "a" |}.
Definition admin : UserContext.User :=
  {| UserContext.username := "admin"; UserContext.password := Some "s3brows3r" |}.
Definition reportsForm : Bucket :=
  {| id := ""; name := "Reports"; bucket := "reports"; region := "eu-west-1";
     accessKeyId := None; secretAccessKey := None; status := untested;
     owner := None; folder := Some "docs" |}.

Lemma addBucket_visibility_witness :
  UserContext.username alice ≠ ""
  ∧ UserContext.username admin ≠ UserContext.username alice
  ∧ userBuckets (Some alice) (addBucket (Some alice) "id-1" reportsForm [])
    = [withIdOwner reportsForm "id-1" (Some "alice")]
  ∧ userBuckets (Some admin) (addBucket (Some alice) "id-1" reportsForm []) = [].
Proof.
  assert (H1 : UserContext.username alice ≠ "") by discriminate.
  assert (H2 : UserContext.username admin ≠ UserContext.username alice) by discriminate.
  split; [exact H1|]. split; [exact H2|].
  destruct (addBucket_visibility alice admin "id-1" reportsForm [] H1 H2) as (Ha & Hb & _).
  split; [exact Ha|exact Hb].
Defined.

Lemma getBucketById_map_other user (g : Bucket → Bucket) allBuckets i j :
  (∀ b, owner (g b) = owner b) → (∀ b, id (g b) = id b) →
  (∀ b, id b ≠ i → g b = b) →
  j = i ∨ getBucketById user (map g allBuckets) j = getBucketById user allBuckets j.
Proof.
  intros Ho Hi Hg. destruct (decide (j = i)) as [|Hne]; [by left|right].
  rewrite getBucketById_map by done.
  destruct (getBucketById user allBuckets j) as [b|] eqn:E; [|done].
  apply getBucketById_id in E. simpl. f_equal. apply Hg. congruence.
Qed.

(** X24.  Updating a bucket keeps the ids and the owners of all buckets, so
    every user sees the same buckets as before; looking up the updated id gives
    the new values under the old id and owner, and looking up any other id
    gives what it gave before. *)
Theorem updateBucket_keeps_id_owner i updatedBucket allBuckets user j :
  id <$> updateBucket i updatedBucket allBuckets = id <$> allBuckets
  ∧ owner <$> updateBucket i updatedBucket allBuckets = owner <$> allBuckets
  ∧ id <$> userBuckets user (updateBucket i updatedBucket allBuckets)
    = id <$> userBuckets user allBuckets
  ∧ getBucketById user (updateBucket i updatedBucket allBuckets) i
    = (λ b, withIdOwner updatedBucket i (owner b)) <$> getBucketById user allBuckets i
  ∧ (j = i
     ∨ getBucketById user (updateBucket i updatedBucket allBuckets) j
       = getBucketById user allBuckets j).
Proof.
  set (g := λ b, if String.eqb (id b) i then withIdOwner updatedBucket i (owner b) else b).
  assert (Ho : ∀ b, owner (g b) = owner b) by (intros b; unfold g; by case_match).
  assert (Hi : ∀ b, id (g b) = id b).
  { intros b. unfold g. case_match eqn:E; [|done]. by apply String.eqb_eq in E. }
  assert (Hg : ∀ b, id b ≠ i → g b = b).
  { intros b Hb. unfold g. by apply String.eqb_neq in Hb as ->. }
  change (updateBucket i updatedBucket allBuckets) with (map g allBuckets).
  split; [|split; [|split; [|split]]].
  - rewrite <- list_fmap_compose. apply list_fmap_ext. intros ? b _. apply Hi.
  - rewrite <- list_fmap_compose. apply list_fmap_ext. intros ? b _. apply Ho.
  - rewrite userBuckets_map by done. rewrite <- list_fmap_compose.
    apply list_fmap_ext. intros ? b _. apply Hi.
  - rewrite getBucketById_map by done.
    destruct (getBucketById user allBuckets i) as [b|] eqn:E; [|done].
    apply getBucketById_id in E. simpl. unfold g. by rewrite E, String.eqb_refl.
  - by apply getBucketById_map_other.
Qed.

(** X25.  Setting the status of a bucket changes nothing else: ids and
    owners are kept, looking up the id gives the same bucket with the new
    status, and looking up any other id gives what it gave before. *)
Theorem setBucketStatus_then_lookup i st allBuckets user j :
  id <$> setBucketStatus i st allBuckets = id <$> allBuckets
  ∧ owner <$> setBucketStatus i st allBuckets = owner <$> allBuckets
  ∧ getBucketById user (setBucketStatus i st allBuckets) i
    = (λ b, withStatus b st) <$> getBucketById user allBuckets i
  ∧ (j = i
     ∨ getBucketById user (setBucketStatus i st allBuckets) j
       = getBucketById user allBuckets j).
Proof.
  set (g := λ b, if String.eqb (id b) i then withStatus b st else b).
  assert (Ho : ∀ b, owner (g b) = owner b) by (intros b; unfold g; by case_match).
  assert (Hi : ∀ b, id (g b) = id b) by (intros b; unfold g; by case_match).
  assert (Hg : ∀ b, id b ≠ i → g b = b).
  { intros b Hb. unfold g. by apply String.eqb_neq in Hb as ->. }
  change (setBucketStatus i st allBuckets) with (map g allBuckets).
  split; [|split; [|split]].
  - rewrite <- list_fmap_compose. apply list_fmap_ext. intros ? b _. apply Hi.
  - rewrite <- list_fmap_compose. apply list_fmap_ext. intros ? b _. apply Ho.
  - rewrite getBucketById_map by done.
    destruct (getBucketById user allBuckets i) as [b|] eqn:E; [|done].
    apply getBucketById_id in E. simpl. unfold g. by rewrite E, String.eqb_refl.
  - by apply getBucketById_map_other.
Qed.

Lemma find_id_filter_ne l i j :
  j ≠ i →
  List.find (λ b, String.eqb (id b) j)
    (List.filter (λ b, negb (String.eqb (id b) i)) l)
  = List.find (λ b, String.eqb (id b) j) l.
Proof.
  intros Hne. induction l as [|b l IH]; simpl; [done|].
  destruct (String.eqb (id b) i) eqn:E; simpl.
  - apply String.eqb_eq in E.
    assert (String.eqb (id b) j = false) as ->; [|done].
    apply String.eqb_neq. congruence.
  - by rewrite IH.
Qed.

Lemma filter_comm {A} (p q : A → bool) l :
  List.filter p (List.filter q l) = List.filter q (List.filter p l).
Proof.
  induction l as [|x l IH]; simpl; [done|].
  destruct (p x) eqn:Ep, (q x) eqn:Eq; simpl; rewrite ?Ep, ?Eq, IH; done.
Qed.

(** X26.  After a bucket is deleted no bucket has its id and looking the id
    up finds nothing; looking up any other id gives what it gave before; and
    the selected bucket is deselected if it had that id and kept otherwise. *)
Theorem deleteBucket_then_lookup i s user j :
  Forall (λ b, id b ≠ i) (allBuckets (deleteBucket i s))
  ∧ getBucketById user (allBuckets (deleteBucket i s)) i = None
  ∧ (j = i
     ∨ getBucketById user (allBuckets (deleteBucket i s)) j
       = getBucketById user (allBuckets s) j)
  ∧ (selectedBucket (deleteBucket i s) = None
       ∧ (selectedBucket s = None ∨ ∃ sb, selectedBucket s = Some sb ∧ id sb = i)
     ∨ selectedBucket (deleteBucket i s) = selectedBucket s
       ∧ ∃ sb, selectedBucket s = Some sb ∧ id sb ≠ i).
Proof.
  assert (Hall : Forall (λ b, id b ≠ i) (allBuckets (deleteBucket i s))).
  { apply Forall_forall. intros b Hin. simpl in Hin.
    apply list_elem_of_In, filter_In in Hin as [_ Hb].
    by apply negb_true_iff, String.eqb_neq in Hb. }
  split; [exact Hall|]. split; [|split].
  - destruct (getBucketById user (allBuckets (deleteBucket i s)) i) as [b|] eqn:E; [|done].
    pose proof (getBucketById_id _ _ _ _ E) as Hid.
    unfold getBucketById in E. apply find_some in E as [Hin _].
    destruct user as [u|]; [|done]. simpl in Hin.
    apply filter_In in Hin as [Hin _]. apply list_elem_of_In in Hin.
    by pose proof (proj1 (Forall_forall _ _) Hall b Hin).
  - destruct (decide (j = i)) as [|Hne]; [by left|right].
    unfold getBucketById. destruct user as [u|]; [|done]. simpl.
    by rewrite filter_comm, find_id_filter_ne.
  - simpl. destruct (selectedBucket s) as [sb|]; [|left; split; [done|by left]].
    destruct (String.eqb (id sb) i) eqn:E.
    + apply String.eqb_eq in E. left. split; [done|]. right. by exists sb.
    + apply String.eqb_neq in E. right. split; [done|]. by exists sb.
Qed.

(** X27.  After the deselecting effect the selected bucket, if any, is the
    one that was selected and has the id of a bucket the user sees; the list of
    buckets is untouched, running the effect again changes nothing, and without
    a user nothing stays selected. *)
Theorem deselectEffect_selected_visible user s :
  (selectedBucket (deselectEffect user s) = None
   ∨ ∃ sb b, selectedBucket (deselectEffect user s) = Some sb
             ∧ selectedBucket s = Some sb
             ∧ b ∈ userBuckets user (allBuckets s) ∧ id b = id sb)
  ∧ allBuckets (deselectEffect user s) = allBuckets s
  ∧ deselectEffect user (deselectEffect user s) = deselectEffect user s
  ∧ selectedBucket (deselectEffect None s) = None.
Proof.
  unfold deselectEffect.
  destruct (selectedBucket s) as [sb|] eqn:Es.
  2: { rewrite Es. split; [by left|]. done. }
  split; [|split; [|split]].
  - destruct (existsb _ (userBuckets user (allBuckets s))) eqn:E; simpl; [|by left].
    right. apply existsb_exists in E as (b & Hin & Hb). apply String.eqb_eq in Hb.
    exists sb, b. rewrite list_elem_of_In. done.
  - by case_match.
  - destruct (existsb _ (userBuckets user (allBuckets s))) eqn:E; simpl; [|done].
    by rewrite Es, E.
  - done.
Qed.

End BucketContext.

(** * The session: [src/context/AuthContext.tsx] *)

Module AuthContext.

(** What [JSON.parse] makes of the value stored under [s3-user]: it throws
    (or the value is null, and reading its fields throws), or it gives a value
    without a user name, or it gives a user. *)
Inductive StoredUser :=
| BrokenJson
| OtherJson
| UserJson (parsedUser : UserContext.User).

(** The local storage as the provider sees it: not usable, or holding an
    item (none, or an empty one, is [None]). *)
Inductive Storage :=
| NoLocalStorage
| LocalStorage (item : option StoredUser).

(** The cells of [AuthProvider], and the storage it reads and writes. *)
Record State := {
  isAuthenticated : bool;
  isLoading : bool;
  user : option UserContext.User;
  storage : Storage
}.

(** The state on mount, over a given storage. *)
Definition initialState (st : Storage) : State :=
  {| isAuthenticated := false; isLoading := true; user := None; storage := st |}.

Definition removeItem (st : Storage) : Storage :=
  match st with
  | NoLocalStorage => NoLocalStorage
  | LocalStorage _ => LocalStorage None
  end.

Definition setItem (st : Storage) (u : UserContext.User) : Storage :=
  match st with
  | NoLocalStorage => NoLocalStorage
  | LocalStorage _ => LocalStorage (Some (UserJson u))
  end.

(** The effect that restores a stored session; it runs on mount and
    whenever [validateUser] changes. *)
Definition restore (validateUser : string → option string → bool) (s : State) : State :=
  let s :=
    match storage s with
    | LocalStorage (Some (UserJson parsedUser)) =>
        if validateUser (UserContext.username parsedUser)
             (UserContext.password parsedUser)
        then {| isAuthenticated := true; isLoading := isLoading s;
                user := Some parsedUser; storage := storage s |}
        else {| isAuthenticated := isAuthenticated s; isLoading := isLoading s;
                user := user s; storage := removeItem (storage s) |}
    | LocalStorage (Some OtherJson) =>
        (* [validateUser(undefined, undefined)] finds no user *)
        {| isAuthenticated := isAuthenticated s; isLoading := isLoading s;
           user := user s; storage := removeItem (storage s) |}
    | LocalStorage (Some BrokenJson) => s      (* caught and logged *)
    | LocalStorage None => s
    | NoLocalStorage => s
    end in
  {| isAuthenticated := isAuthenticated s; isLoading := false;
     user := user s; storage := storage s |}.

Definition login (validateUser : string → option string → bool)
    (username pass : string) (s : State) : State * bool :=
  if validateUser username (Some pass) then
    let userToStore :=
      {| UserContext.username := username; UserContext.password := Some pass |} in
    ({| isAuthenticated := true; isLoading := isLoading s;
        user := Some userToStore; storage := setItem (storage s) userToStore |},
     true)
  else (s, false).

(** [logout]; the second component is the route pushed. *)
Definition logout (s : State) : State * string :=
  ({| isAuthenticated := false; isLoading := isLoading s;
      user := None; storage := removeItem (storage s) |},
   "/login").

(** What happens to the provider, each time with the registry of the moment. *)
Inductive Event :=
| Restore (users : list UserContext.User)
| Login (users : list UserContext.User) (username pass : string)
| Logout.

Definition apply (s : State) (ev : Event) : State :=
  match ev with
  | Restore users => restore (UserContext.validateUser users) s
  | Login users username pass =>
      (login (UserContext.validateUser users) username pass s).1
  | Logout => (logout s).1
  end.

Definition consistent (s : State) : Prop :=
  isAuthenticated s = true ↔ is_Some (user s).

Lemma consistent_apply s ev : consistent s → consistent (apply s ev).
Proof.
  unfold consistent. intros Hs. destruct ev as [users|users username pass|]; simpl.
  - unfold restore. destruct (storage s) as [|[[| |parsedUser]|]]; simpl; try done.
    case_match; simpl; [|done]. split; [by eexists|done].
  - unfold login. case_match; simpl; [|done]. split; [by eexists|done].
  - split; [done|]. by intros [? [=]].
Qed.

(** X28.  Whatever the storage held and whatever follows (restoring,
    logging in, logging out, each against any registry), the provider says
    "authenticated" exactly when it has a user; and after a logout it is not
    authenticated, it has no user, nothing is stored and the login page is
    asked for. *)
Theorem authenticated_iff_user st events s :
  (isAuthenticated (foldl apply (initialState st) events) = true
   ↔ is_Some (user (foldl apply (initialState st) events)))
  ∧ isAuthenticated (logout s).1 = false
  ∧ user (logout s).1 = None
  ∧ (storage (logout s).1 = NoLocalStorage ∨ storage (logout s).1 = LocalStorage None)
  ∧ (logout s).2 = "/login".
Proof.
  split.
  - assert (consistent (initialState st)) as Hinit.
    { split; [done|]. by intros [? [=]]. }
    revert Hinit. generalize (initialState st).
    induction events as [|ev events IH]; intros s0 Hs0; simpl; [done|].
    by apply IH, consistent_apply.
  - simpl. repeat split. destruct (storage s); [by left|by right].
Qed.

(** A login succeeds exactly when the registry validates the name
    with the password.  When it fails nothing changes; when it succeeds the
    provider is authenticated as that user and, the storage being usable, the
    user is what is stored. *)
Lemma login_outcome users username pass s :
  (login (UserContext.validateUser users) username pass s).2
  = UserContext.validateUser users username (Some pass)
  ∧ ((login (UserContext.validateUser users) username pass s).2 = false
       ∧ (login (UserContext.validateUser users) username pass s).1 = s
     ∨ (login (UserContext.validateUser users) username pass s).2 = true
       ∧ isAuthenticated (login (UserContext.validateUser users) username pass s).1 = true
       ∧ user (login (UserContext.validateUser users) username pass s).1
         = Some {| UserContext.username := username;
                   UserContext.password := Some pass |}
       ∧ (storage s = NoLocalStorage
          ∨ storage (login (UserContext.validateUser users) username pass s).1
            = LocalStorage
                (Some (UserJson {| UserContext.username := username;
                                   UserContext.password := Some pass |})))).
Proof.
  unfold login. destruct (UserContext.validateUser users username (Some pass)); simpl.
  - split; [done|]. right. repeat split. destruct (storage s); [by left|by right].
  - split; [done|]. by left.
Qed.



End AuthContext.
